(** * reliable: the per-peer connection core (conn.go)

    A shallow embedding of [Conn] and of the operations of conn.go, and the
    properties of the connection that the specification states.

    Conventions.
    - A [uint16] is a [Z] in [0, 2^16); every arithmetic operation of the
      source on [uint16] is followed by [u16].  A [uint32] is a [Z] in
      [0, 2^32).
    - The rings [wq], [rq] and [wqe] are lists, read with stdpp's lookup and
      written with stdpp's insert.  The source only indexes them with
      [x % len], which is in range as soon as the ring is not empty; Go
      panics on an empty ring ([% 0]), which [NewConn] excludes.  Theorems
      that depend on it assume [wf].
    - The mutex is not modelled: every method runs its critical sections in
      program order.  The one place where a method suspends, the wait on the
      condition variable [ouc], is modelled with the list of states that the
      connection is found in at each return of [ouc.Wait()]: [wakeups].
    - What a method does to its collaborators (the transport, the pool, the
      packet handler, the exit channel, the condition variable) is returned
      as a list of [event]s, in program order.
    - [NewConn], [Run] and [retransmitUnackedPackets] are not embedded: no
      statement below is about the options, the ticker or the resend
      timeout. *)

From Stdlib Require Import ZArith Lia Bool String.
From stdpp Require Import base list.

Local Open Scope Z_scope.

(** ** Machine integers *)

Definition u16 (x : Z) : Z := x mod 65536.
Definition uint32 (x : Z) : Z := x mod 4294967296.

Definition is_u16 (x : Z) : Prop := 0 <= x < 65536.

Definition len {A} (l : list A) : Z := Z.of_nat (length l).

(** ** Data *)

Definition bytes := list Byte.byte.

(** [Buffer] of the pool: only its field [B] is used by conn.go. *)
Record Buffer := { B : bytes }.

(** [writtenPacket], with the fields conn.go reads and writes. *)
Record writtenPacket := {
  buf : option Buffer;   (* nil or the serialized packet *)
  acked : bool;
  written : Z;           (* time.Time of the last transmission *)
  resent : Z
}.

Definition zeroPacket : writtenPacket :=
  {| buf := None; acked := false; written := 0; resent := 0 |}.

Record PacketHeader := {
  Sequence : Z;
  ACK : Z;
  ACKBits : Z;
  Unordered : bool;
  Empty : bool
}.

Inductive error :=
| EOF                                   (* io.EOF *)
| ErrShortWrite                         (* io.ErrShortWrite *)
| ErrNet (code : Z)                     (* an error of the transport *)
| Errorf (msg : string) (e : error).    (* fmt.Errorf("msg: %w", e) *)

(** What a method does to its collaborators. *)
Inductive event :=
| WriteTo (b : bytes)                   (* c.conn.WriteTo(b, c.addr) *)
| PoolPut (b : Buffer)                  (* c.pool.Put(b) *)
| Handle (seq : Z) (payload : bytes)    (* c.ph(c.addr, seq, payload) *)
| Broadcast                             (* c.ouc.Broadcast() *)
| CloseExit.                            (* close(c.exit) *)

Record Conn := {
  conn : bytes -> Z * option error;     (* the answer of c.conn.WriteTo *)
  ph : bool;                            (* c.ph != nil *)
  die : bool;
  lui : Z;
  oui : Z;
  ls : Z;
  wi : Z;
  ri : Z;
  wq : list Z;
  rq : list Z;
  wqe : list writtenPacket
}.

Definition set_die (v : bool) (c : Conn) : Conn :=
  {| conn := conn c; ph := ph c; die := v; lui := lui c; oui := oui c;
     ls := ls c; wi := wi c; ri := ri c; wq := wq c; rq := rq c;
     wqe := wqe c |}.
Definition set_lui (v : Z) (c : Conn) : Conn :=
  {| conn := conn c; ph := ph c; die := die c; lui := v; oui := oui c;
     ls := ls c; wi := wi c; ri := ri c; wq := wq c; rq := rq c;
     wqe := wqe c |}.
Definition set_oui (v : Z) (c : Conn) : Conn :=
  {| conn := conn c; ph := ph c; die := die c; lui := lui c; oui := v;
     ls := ls c; wi := wi c; ri := ri c; wq := wq c; rq := rq c;
     wqe := wqe c |}.
Definition set_ls (v : Z) (c : Conn) : Conn :=
  {| conn := conn c; ph := ph c; die := die c; lui := lui c; oui := oui c;
     ls := v; wi := wi c; ri := ri c; wq := wq c; rq := rq c;
     wqe := wqe c |}.
Definition set_wi (v : Z) (c : Conn) : Conn :=
  {| conn := conn c; ph := ph c; die := die c; lui := lui c; oui := oui c;
     ls := ls c; wi := v; ri := ri c; wq := wq c; rq := rq c;
     wqe := wqe c |}.
Definition set_ri (v : Z) (c : Conn) : Conn :=
  {| conn := conn c; ph := ph c; die := die c; lui := lui c; oui := oui c;
     ls := ls c; wi := wi c; ri := v; wq := wq c; rq := rq c;
     wqe := wqe c |}.
Definition set_wq (v : list Z) (c : Conn) : Conn :=
  {| conn := conn c; ph := ph c; die := die c; lui := lui c; oui := oui c;
     ls := ls c; wi := wi c; ri := ri c; wq := v; rq := rq c;
     wqe := wqe c |}.
Definition set_rq (v : list Z) (c : Conn) : Conn :=
  {| conn := conn c; ph := ph c; die := die c; lui := lui c; oui := oui c;
     ls := ls c; wi := wi c; ri := ri c; wq := wq c; rq := v;
     wqe := wqe c |}.
Definition set_wqe (v : list writtenPacket) (c : Conn) : Conn :=
  {| conn := conn c; ph := ph c; die := die c; lui := lui c; oui := oui c;
     ls := ls c; wi := wi c; ri := ri c; wq := wq c; rq := rq c;
     wqe := v |}.

(** The state [NewConn] builds and every method keeps: rings that are not
    empty and whose size fits a [uint16], [wqe] as long as [wq], cursors in
    [uint16]. *)
Record wf (c : Conn) : Prop := {
  wf_rq : 0 < len (rq c) < 65536;
  wf_wq : 0 < len (wq c) < 65536;
  wf_wqe : length (wqe c) = length (wq c);
  wf_lui : is_u16 (lui c);
  wf_oui : is_u16 (oui c);
  wf_wi : is_u16 (wi c);
  wf_ri : is_u16 (ri c)
}.

(** ** Results of a method that may suspend *)

Inductive outcome (A : Type) :=
| Done (a : A)       (* the method returned *)
| Blocked            (* suspended in ouc.Wait() with no wake-up left *)
| OutOfFuel.         (* a loop of the model ran out of fuel *)
Arguments Done {A} a.
Arguments Blocked {A}.
Arguments OutOfFuel {A}.

#[export] Instance outcome_ret : MRet outcome := fun A a => Done a.
#[export] Instance outcome_bind : MBind outcome := fun A B f m =>
  match m with
  | Done a => f a
  | Blocked => Blocked
  | OutOfFuel => OutOfFuel
  end.

(** ** Ring access *)

(** [q[i] == x] on a ring of [uint32]. *)
Definition holds (q : list Z) (i x : Z) : bool :=
  match q !! Z.to_nat i with
  | Some v => v =? x
  | None => false
  end.

(** [c.wqe[i]]. *)
Definition entry (c : Conn) (i : Z) : writtenPacket :=
  default zeroPacket (wqe c !! Z.to_nat i).

(** Modelled from the spec: [ACKBitsetSize] is declared outside conn.go; the
    ack bitset is "a 32-bit bitfield that reports receipt of up to 32 recent
    packets". *)
Definition ACKBitsetSize : Z := 32.

(** Modelled from the spec: [emptyBufferIndices] is declared outside conn.go;
    it marks every slot of the slice empty, and the sentinel of an empty slot
    is [0xFFFFFFFF]. *)
Definition emptySlot : Z := 4294967295.
Definition emptyBufferIndices (q : list Z) : list Z :=
  replicate (length q) emptySlot.

(** [emptyBufferIndices(q[lo:hi])], as it acts on the ring [q] the slice
    shares its storage with. *)
Definition emptySlice (q : list Z) (lo hi : Z) : list Z :=
  take (Z.to_nat lo) q
  ++ emptyBufferIndices (take (Z.to_nat (hi - lo)) (drop (Z.to_nat lo) q))
  ++ drop (Z.to_nat hi) q.

(** [clearWrites] and [clearReads] are the same code, on [wq] and on [rq]. *)
Definition clearRing (q : list Z) (start end_ : Z) : list Z :=
  let count := u16 (end_ - start + 1) in
  let size := u16 (len q) in
  if size <=? count then emptyBufferIndices q
  else
    let lo := start mod size in              (* first := q[start%size:] *)
    let length_ := u16 (len q - lo) in
    if count <=? length_ then emptySlice q lo (lo + count)
    else
      (* second := q[:count-length] *)
      emptySlice (emptySlice q lo (len q)) 0 (count - length_).

Definition clearWrites (c : Conn) (start end_ : Z) : Conn :=
  set_wq (clearRing (wq c) start end_) c.

Definition clearReads (c : Conn) (start end_ : Z) : Conn :=
  set_rq (clearRing (rq c) start end_) c.

(** ** The methods of [Conn] *)

Section Methods.

(** [seq.GT] of github.com/lithdew/seq, the serial-number comparison of two
    [uint16]; a parameter of the development. *)
Variable GT : Z -> Z -> bool.

(** [PacketHeader.AppendTo], the wire encoding of a header appended to a
    byte slice; declared outside conn.go. *)
Variable AppendTo : PacketHeader -> bytes -> bytes.

(** [isEOF], which recognises the end-of-file errors of the transport;
    declared outside conn.go. *)
Variable isEOF : error -> bool.

(** What [time.Now()] answers during the call. *)
Variable now : Z.

(** *** Acknowledgement bits *)

Fixpoint prepareAckBits_loop (fuel : nat) (c : Conn) (ack i m ackBits : Z) : Z :=
  match fuel with
  | O => ackBits
  | S fuel' =>
      if i <? ACKBitsetSize then
        let ackBits' :=
          if negb (holds (rq c) (u16 (ack - i) mod u16 (len (rq c)))
                     (uint32 (u16 (ack - i))))
          then ackBits
          else Z.lor ackBits m in
        prepareAckBits_loop fuel' c ack (u16 (i + 1)) (uint32 (Z.shiftl m 1))
          ackBits'
      else ackBits
  end.

Definition prepareAckBits (c : Conn) (ack : Z) : Z :=
  prepareAckBits_loop (Z.to_nat ACKBitsetSize) c ack 0 1 0.

Definition nextWriteIndex (c : Conn) : Z * Conn :=
  (wi c, set_wi (u16 (wi c + 1)) c).

Definition nextAckDetails (c : Conn) : Z * Z :=
  let ack := u16 (ri c - 1) in
  (ack, prepareAckBits c ack).

(** *** The writer gate *)

(** The condition of the loop of [waitUntilReaderAvailable]. *)
Definition mustWait (c : Conn) : bool :=
  negb (die c) && GT (u16 (wi c + 1)) (u16 (oui c + u16 (len (rq c)))).

(** [c] is the connection when the loop tests its condition; [wakeups] are
    the states it is found in at each later return of [c.ouc.Wait()]. *)
Fixpoint waitUntilReaderAvailable (wakeups : list Conn) (c : Conn)
  : outcome (Conn * list Conn) :=
  if mustWait c then
    match wakeups with
    | [] => Blocked
    | c' :: rest => waitUntilReaderAvailable rest c'
    end
  else Done (c, wakeups).

Definition waitForNextWriteDetails (c : Conn) (wakeups : list Conn)
  : outcome (Z * Z * Z * bool * Conn * list Conn) :=
  '(c1, rest) ← waitUntilReaderAvailable wakeups c;
  let '(idx, c2) := nextWriteIndex c1 in
  let ok := negb (die c1) in
  let '(ack, ackBits) := nextAckDetails c2 in
  Done (idx, ack, ackBits, ok, c2, rest).

(** *** Cursor maintenance *)

(** The loop of [trackAcked]; [None] when the fuel is used up. *)
Fixpoint trackAcked_loop (fuel : nat) (c : Conn) (ack lui_ : Z) : option Z :=
  match fuel with
  | O => None
  | S fuel' =>
      if lui_ <=? ack then
        if negb (holds (rq c) (lui_ mod u16 (len (rq c))) (uint32 lui_))
        then Some lui_
        else trackAcked_loop fuel' c ack (u16 (lui_ + 1))
      else Some lui_
  end.

(** One turn of the loop for each of the 2^16 sequences is enough
    ([trackAcked_total]). *)
Definition seqSpace : nat := Z.to_nat 65536.

Definition trackAcked (ack : Z) (c : Conn) : outcome Conn :=
  match trackAcked_loop seqSpace c ack (lui c) with
  | Some lui_ => Done (set_ls now (set_lui lui_ c))
  | None => OutOfFuel
  end.

(** The loop of [trackUnacked]; [None] when the fuel is used up. *)
Fixpoint trackUnacked_loop (fuel : nat) (c : Conn) (oui_ : Z) : option Z :=
  match fuel with
  | O => None
  | S fuel' =>
      let i := oui_ mod u16 (len (wq c)) in
      if negb (holds (wq c) i (uint32 oui_)) || negb (acked (entry c i))
      then Some oui_
      else trackUnacked_loop fuel' c (u16 (oui_ + 1))
  end.

Definition trackUnacked (c : Conn) : outcome (Conn * list event) :=
  match trackUnacked_loop seqSpace c (oui c) with
  | Some oui_ => Done (set_oui oui_ c, [Broadcast])
  | None => OutOfFuel
  end.

(** *** The send window *)

Definition trackWrite (idx : Z) (b : Buffer) (c : Conn) : Conn * list event :=
  let c1 :=
    if GT (u16 (idx + 1)) (wi c)
    then set_wi (u16 (idx + 1)) (clearWrites c (wi c) idx)
    else c in
  let i := idx mod u16 (len (wq c1)) in
  let c2 := set_wq (<[Z.to_nat i := uint32 idx]> (wq c1)) c1 in
  let put :=
    match buf (entry c2 i) with
    | Some old => [PoolPut old]
    | None => []
    end in
  (set_wqe (<[Z.to_nat i := {| buf := Some b; acked := false;
                                 written := now; resent := 0 |}]> (wqe c2)) c2,
   put).

Definition transmit (c : Conn) (b : bytes) : option error :=
  let '(n, err) := conn c b in
  match err with
  | None => if negb (n =? len b) then Some ErrShortWrite else None
  | Some e => Some e
  end.

(** Modelled from the spec: [Pool] is declared outside conn.go; [Get]
    "yields" a byte buffer, here an empty one, and [Put] "accepts" it. *)
Definition poolGet : Buffer := {| B := [] |}.

Definition write (header : PacketHeader) (payload : bytes) (c : Conn)
  : option error * Conn * list event :=
  let b := {| B := AppendTo header (B poolGet) ++ payload |} in
  let '(c1, put) :=
    if negb (Unordered header) then trackWrite (Sequence header) b c
    else (c, []) in
  let deferred := if Unordered header then [PoolPut b] else [] in
  let evs := put ++ [WriteTo (B b)] ++ deferred in
  match transmit c1 (B b) with
  | Some e =>
      if negb (isEOF e)
      then (Some (Errorf "failed to transmit packet" e), c1, evs)
      else (None, c1, evs)
  | None => (None, c1, evs)
  end.

Definition writePacket (reliable : bool) (payload : bytes) (c : Conn)
  (wakeups : list Conn) : outcome (option error * Conn * list event) :=
  '(idx, ack, ackBits, ok, c1, _) ←
    (if reliable then waitForNextWriteDetails c wakeups
     else let '(ack, ackBits) := nextAckDetails c in
          Done (0, ack, ackBits, true, c, wakeups));
  if negb ok then Done (Some EOF, c1, [])
  else
    c2 ← trackAcked ack c1;
    Done (write {| Sequence := idx; ACK := ack; ACKBits := ackBits;
                   Unordered := negb reliable; Empty := false |} payload c2).

Definition WriteReliablePacket := writePacket true.
Definition WriteUnreliablePacket := writePacket false.

(** *** The receive path *)

(** The body of the loop of [readAckBits] when bit [idx] is set. *)
Definition ackSlot (s : Z) (c : Conn) : Conn * list event :=
  let i := s mod u16 (len (wq c)) in
  if negb (holds (wq c) i (uint32 s)) || acked (entry c i) then (c, [])
  else
    let put :=
      match buf (entry c i) with
      | Some b => [PoolPut b]
      | None => []
      end in
    (set_wqe (<[Z.to_nat i := {| buf := None; acked := true;
                                   written := written (entry c i);
                                   resent := resent (entry c i) |}]> (wqe c)) c,
     put).

Fixpoint readAckBits_loop (fuel : nat) (ack idx ackBits : Z) (c : Conn)
  : Conn * list event :=
  match fuel with
  | O => (c, [])
  | S fuel' =>
      if idx <? ACKBitsetSize then
        let '(c1, put) :=
          if Z.land ackBits 1 =? 0 then (c, [])
          else ackSlot (u16 (ack - idx)) c in
        let '(c2, puts) :=
          readAckBits_loop fuel' ack (u16 (idx + 1)) (Z.shiftr ackBits 1) c1 in
        (c2, put ++ puts)
      else (c, [])
  end.

Definition readAckBits (ack ackBits : Z) (c : Conn) : Conn * list event :=
  readAckBits_loop (Z.to_nat ACKBitsetSize) ack 0 ackBits c.

Definition trackRead (idx : Z) (c : Conn) : bool * Conn :=
  let i := idx mod u16 (len (rq c)) in
  if holds (rq c) i (uint32 idx) then (false, c)   (* duplicate packet *)
  else
    let c1 :=
      if GT (u16 (idx + 1)) (ri c)
      then set_ri (u16 (idx + 1)) (clearReads c (ri c) idx)
      else c in
    (true, set_rq (<[Z.to_nat i := uint32 idx]> (rq c1)) c1).

(** The first loop of [createAckIfNecessary]: are the [ACKBitsetSize]
    sequences from [lui_] on all recorded in [rq]? *)
Fixpoint received_loop (fuel : nat) (c : Conn) (lui_ i : Z) : bool :=
  match fuel with
  | O => true
  | S fuel' =>
      if i <? ACKBitsetSize then
        if negb (holds (rq c) (u16 (lui_ + i) mod u16 (len (rq c)))
                   (uint32 (u16 (lui_ + i))))
        then false
        else received_loop fuel' c lui_ (u16 (i + 1))
      else true
  end.

Definition zeroHeader : PacketHeader :=
  {| Sequence := 0; ACK := 0; ACKBits := 0; Unordered := false;
     Empty := false |}.

Definition createAckIfNecessary (c : Conn) (wakeups : list Conn)
  : outcome (PacketHeader * bool * Conn * list Conn) :=
  let lui_ := lui c in
  if negb (received_loop (Z.to_nat ACKBitsetSize) c lui_ 0)
  then Done (zeroHeader, false, c, wakeups)
  else
    let lui_ := u16 (lui_ + ACKBitsetSize) in
    let c1 := set_ls now (set_lui lui_ c) in
    '(c2, rest) ← waitUntilReaderAvailable wakeups c1;
    let '(idx, c3) := nextWriteIndex c2 in
    let ack := u16 (lui_ - 1) in
    let header :=
      {| Sequence := idx; ACK := ack; ACKBits := prepareAckBits c3 ack;
         Unordered := false; Empty := true |} in
    Done (header, negb (die c3), c3, rest).

Fixpoint writeAcksIfNecessary (fuel : nat) (c : Conn) (wakeups : list Conn)
  : outcome (option error * Conn * list Conn * list event) :=
  match fuel with
  | O => OutOfFuel
  | S fuel' =>
      '(header, needed, c1, rest) ← createAckIfNecessary c wakeups;
      if negb needed then Done (None, c1, rest, [])
      else
        let '(err, c2, evs) := write header [] c1 in
        match err with
        | Some e => Done (Some (Errorf "failed to write ack packet" e), c2,
                          rest, evs)
        | None =>
            '(err', c3, rest', evs') ← writeAcksIfNecessary fuel' c2 rest;
            Done (err', c3, rest', evs ++ evs')
        end
  end.

(** [fuel] bounds the turns of the loop of [writeAcksIfNecessary]. *)
Definition Read (fuel : nat) (header : PacketHeader) (payload : bytes)
  (c : Conn) (wakeups : list Conn)
  : outcome (option error * Conn * list event) :=
  let '(c1, ev1) := readAckBits (ACK header) (ACKBits header) c in
  let '(fresh, c2) :=
    if negb (Unordered header) then trackRead (Sequence header) c1
    else (true, c1) in
  if negb (Unordered header) && negb fresh then Done (None, c2, ev1)
  else
    '(c3, ev3) ← trackUnacked c2;
    '(err, c4, _, ev4) ← writeAcksIfNecessary fuel c3 wakeups;
    match err with
    | Some e => Done (Some (Errorf "failed to write acks when necessary" e),
                      c4, ev1 ++ ev3 ++ ev4)
    | None =>
        if Empty header then Done (None, c4, ev1 ++ ev3 ++ ev4)
        else if ph c4
             then Done (None, c4,
                        ev1 ++ ev3 ++ ev4 ++ [Handle (Sequence header) payload])
             else Done (None, c4, ev1 ++ ev3 ++ ev4)
    end.

(** *** Closing *)

Definition close (c : Conn) : bool * Conn * list event :=
  if die c then (false, c, [])
  else (true, set_die true c, [CloseExit; Broadcast]).

Definition Close (c : Conn) : Conn * list event :=
  let '(_, c1, evs) := close c in (c1, evs).

End Methods.

(** The loops over the sequence space and over the bitset are left folded by
    [simpl]. *)
Arguments trackAcked : simpl never.
Arguments trackUnacked : simpl never.
Arguments prepareAckBits : simpl never.
Arguments readAckBits : simpl never.

(** ** Instances of the parameters, and sample connections *)

(** Modelled from the spec: [seq.GT] is "true iff (a - b) mod 2^16 lies in
    (0, 2^15)". *)
Definition GT16 (a b : Z) : bool :=
  let d := u16 (a - b) in (0 <? d) && (d <? 32768).

(** Serial-number "at most": [b] is not before [a]. *)
Definition LE16 (a b : Z) : bool := negb (GT16 a b).

Definition byteOf (x : Z) : Byte.byte :=
  default Byte.x00 (Byte.of_N (Z.to_N (x mod 256))).

(** A wire encoding of the header, to run the methods on: one byte of flags,
    then the sequence, the ack and the ack bits, big-endian. *)
Definition encodeHeader (h : PacketHeader) (dst : bytes) : bytes :=
  dst ++ [ byteOf ((if Unordered h then 1 else 0) + (if Empty h then 2 else 0));
           byteOf (Sequence h / 256); byteOf (Sequence h);
           byteOf (ACK h / 256); byteOf (ACK h);
           byteOf (ACKBits h / 16777216); byteOf (ACKBits h / 65536);
           byteOf (ACKBits h / 256); byteOf (ACKBits h) ].

Definition eofOnly (e : error) : bool :=
  match e with
  | EOF => true
  | _ => false
  end.

(** A transport that accepts every datagram whole. *)
Definition lossless (b : bytes) : Z * option error := (len b, None).

(** A connection as [NewConn] leaves it, with rings of [size] slots. *)
Definition newConn (size : nat) : Conn :=
  {| conn := lossless; ph := true; die := false; lui := 0; oui := 0; ls := 0;
     wi := 0; ri := 0;
     wq := replicate size emptySlot;
     rq := replicate size emptySlot;
     wqe := replicate size zeroPacket |}.

(** The sequences [from, from + n) as slot contents. *)
Definition tags (from : Z) (n : nat) : list Z :=
  (fun k => from + Z.of_nat k) <$> seq 0 n.

Definition payload1 : bytes := [Byte.x2a].

(** ** Predicates of the statements *)

(** Is sequence [ack - k] recorded in the receive window? *)
Definition recorded (c : Conn) (ack k : Z) : bool :=
  holds (rq c) (u16 (ack - k) mod u16 (len (rq c))) (uint32 (u16 (ack - k))).

(** The test of [readAckBits] that makes it skip the slot of sequence [s]:
    the slot holds another tag, or is acked already. *)
Definition skipped (s : Z) (c : Conn) : bool :=
  let i := s mod u16 (len (wq c)) in
  negb (holds (wq c) i (uint32 s)) || acked (entry c i).

(** The sequences that [readAckBits] visits with their bit set, in the order
    of the loop. *)
Fixpoint ackTargets (fuel : nat) (ack idx ackBits : Z) : list Z :=
  match fuel with
  | O => []
  | S fuel' =>
      if idx <? ACKBitsetSize then
        (if Z.land ackBits 1 =? 0 then [] else [u16 (ack - idx)])
        ++ ackTargets fuel' ack (u16 (idx + 1)) (Z.shiftr ackBits 1)
      else []
  end.

(** [ackSlot] on each sequence of a list in turn. *)
Fixpoint ackAll (l : list Z) (c : Conn) : Conn * list event :=
  match l with
  | [] => (c, [])
  | s :: l' =>
      let '(c1, put) := ackSlot s c in
      let '(c2, puts) := ackAll l' c1 in
      (c2, put ++ puts)
  end.

(** [c'] is [c] but for the contents of [wqe]. *)
Definition same_but_wqe (c c' : Conn) : Prop :=
  c' = set_wqe (wqe c') c /\ length (wqe c') = length (wqe c).

(** A connection whose receive window straddles the wrap of the sequence
    space: sequences [65535] and [0] are recorded, [ri = 1], and [65535] has
    not been reported yet ([lui = 65535]). *)
Definition wrapConn : Conn :=
  set_ri 1 (set_lui 65535
    (set_rq (<[31%nat := 65535]> (<[0%nat := 0]> (replicate 32 emptySlot)))
       (newConn 32))).

(** The connection [newConn 32] after one reliable write of [payload1] at
    time [7]. *)
Definition afterWrite : Conn :=
  match WriteReliablePacket GT16 encodeHeader eofOnly 7 payload1 (newConn 32) []
  with
  | Done (_, c, _) => c
  | _ => newConn 32
  end.

(** [c'] has the receive side of [c], its flags and [oui]. *)
Definition rx_frame (c c' : Conn) : Prop :=
  rq c' = rq c /\ ri c' = ri c /\ lui c' = lui c /\ ph c' = ph c
  /\ die c' = die c /\ oui c' = oui c /\ conn c' = conn c.

(** A closed connection on which 32 sequences have been taken and none
    acked. *)
Definition closedFull : Conn := set_die true (set_wi 32 (newConn 32)).

(** A writer finds [fullConn] with its window full; [roomConn] is what it
    finds once sequence [0] has been acked. *)
Definition fullConn : Conn := set_wi 32 (newConn 32).
Definition roomConn : Conn := set_oui 1 fullConn.

(** Sequences [0..30] are recorded and none has been reported. *)
Definition almostConn : Conn :=
  set_ri 31 (set_rq (tags 0 31 ++ [emptySlot]) (newConn 32)).

(** Sequences [0..31] are recorded and none has been reported. *)
Definition windowConn : Conn := set_ri 32 (set_rq (tags 0 32) (newConn 32)).

Definition dataHeader (s : Z) : PacketHeader :=
  {| Sequence := s; ACK := 65535; ACKBits := 0; Unordered := false;
     Empty := false |}.


(** Sequences [32..39] are recorded, in slots [0..7]; [ri = 40]. *)
Definition lateConn : Conn :=
  set_lui 40 (set_ri 40
    (set_rq (tags 32 8 ++ replicate 24 emptySlot) (newConn 32))).

(** Sequences [0..4] were written and sequence [2] is acked. *)
Definition sentConn : Conn :=
  set_wi 5
    (set_wqe (((fun s => {| buf := Some {| B := [byteOf s] |};
                            acked := bool_decide (s = 2);
                            written := 7; resent := 0 |}) <$> tags 0 5)
              ++ replicate 27 zeroPacket)
       (set_wq (tags 0 5 ++ replicate 27 emptySlot) (newConn 32))).

(** The header an unreliable write sends from [newConn], and the one it
    would send if it took the sequence [5]. *)
Definition unreliableHeader (s : Z) : PacketHeader :=
  {| Sequence := s; ACK := 65535; ACKBits := 0; Unordered := true;
     Empty := false |}.

(** ** More predicates of the statements *)

(** The receive window records sequence [s]. *)
Definition recordedSeq (c : Conn) (s : Z) : bool :=
  holds (rq c) (s mod u16 (len (rq c))) (uint32 s).

(** The send window holds sequence [s], and it is acked. *)
Definition ackedSeq (c : Conn) (s : Z) : bool :=
  holds (wq c) (s mod u16 (len (wq c))) (uint32 s)
  && acked (entry c (s mod u16 (len (wq c)))).

(** Every send slot that holds a sequence and is not acked retains its
    buffer. *)
Definition buffers_kept (c : Conn) : Prop :=
  forall i s e,
    wq c !! i = Some s -> is_u16 s -> wqe c !! i = Some e ->
    acked e = false -> buf e <> None.

(** ** The retransmit loop *)

Section Retransmit.

Variable isEOF : error -> bool.
Variable now : Z.

(** [writtenPacket.shouldResend(now, resendTimeout)], declared outside
    conn.go; a parameter. *)
Variable shouldResend : writtenPacket -> Z -> Z -> bool.

(** [c.resendTimeout]. *)
Variable resendTimeout : Z.

(** The loop of [retransmitUnackedPackets], from [idx] on.  [None]: the loop
    reads [c.wqe[i].buf.B] on a slot whose [buf] is nil, and the goroutine
    panics.  [resent] is a [uint32]. *)
Fixpoint retransmit_loop (fuel : nat) (idx : Z) (c : Conn)
  : option (option error * Conn * list event) :=
  match fuel with
  | O => Some (None, c, [])
  | S fuel' =>
      if idx <? u16 (len (wq c)) then
        let i := u16 (oui c + idx) mod u16 (len (wq c)) in
        if negb (holds (wq c) i (uint32 (u16 (oui c + idx))))
           || negb (shouldResend (entry c i) now resendTimeout)
        then retransmit_loop fuel' (u16 (idx + 1)) c
        else
          match buf (entry c i) with
          | None => None
          | Some b =>
              match transmit c (B b) with
              | Some e =>
                  if isEOF e then Some (None, c, [WriteTo (B b)])
                  else Some (Some (Errorf "failed to retransmit unacked packet" e),
                             c, [WriteTo (B b)])
              | None =>
                  let c1 :=
                    set_wqe (<[Z.to_nat i :=
                                 {| buf := buf (entry c i);
                                    acked := acked (entry c i);
                                    written := now;
                                    resent := uint32 (resent (entry c i) + 1) |}]>
                               (wqe c)) c in
                  '(r, c2, evs) ← retransmit_loop fuel' (u16 (idx + 1)) c1;
                  Some (r, c2, WriteTo (B b) :: evs)
              end
          end
      else Some (None, c, [])
  end.

(** One turn for each slot of [wq]. *)
Definition retransmitUnackedPackets (c : Conn)
  : option (option error * Conn * list event) :=
  retransmit_loop (length (wq c)) 0 c.

End Retransmit.

(** Modelled from the spec: [shouldResend] holds when "the slot's written
    timestamp is older than resend_timeout and the slot is not acked". *)
Definition agedUnacked (p : writtenPacket) (now timeout : Z) : bool :=
  negb (acked p) && (timeout <=? now - written p).

(** [sentConn] at time [100]: sequences [0..4] were written at time [7]. *)
Definition retransmitted : option (option error * Conn * list event) :=
  retransmitUnackedPackets eofOnly 100 agedUnacked 50 sentConn.

(** [c'] is [c] but for the fields [written] and [resent] of the entries of
    [wqe]. *)
Definition times_only (c c' : Conn) : Prop :=
  c' = set_wqe (wqe c') c
  /\ length (wqe c') = length (wqe c)
  /\ forall i e, wqe c !! i = Some e ->
       exists e', wqe c' !! i = Some e' /\ buf e' = buf e /\ acked e' = acked e.

(** A connection in shape whose unacked slots have kept their buffers. *)
Definition sound (c : Conn) : Prop := wf c /\ buffers_kept c.

(** ** Sample states of the stale receive *)

(** [lateConn] when 32 sequences have been taken from [wi] and none of them
    is acked: the writer gate is shut. *)
Definition shutConn : Conn := set_wi 32 lateConn.

(** The header of a reliable packet with no payload (a standalone ack) under
    sequence [s]. *)
Definition emptyHeader (s : Z) : PacketHeader :=
  {| Sequence := s; ACK := 65535; ACKBits := 0; Unordered := false;
     Empty := true |}.

(** A transport that refuses every datagram. *)
Definition refusing (b : bytes) : Z * option error := (0, Some (ErrNet 1)).

(** Sequences [1..31] are recorded and sequence [0] is not, none has been
    reported ([lui = 0]), [ri = 32], and the transport is down. *)
Definition downConn : Conn :=
  {| conn := refusing; ph := true; die := false; lui := 0; oui := 0; ls := 0;
     wi := 0; ri := 32;
     wq := replicate 32 emptySlot;
     rq := emptySlot :: tags 1 31;
     wqe := replicate 32 zeroPacket |}.

(** The standalone ack that [downConn] owes once sequence [0] is there. *)
Definition downAck : PacketHeader :=
  {| Sequence := 0; ACK := 31; ACKBits := 4294967295; Unordered := false;
     Empty := true |}.

(** ** Arithmetic of the machine integers *)

Lemma u16_range x : is_u16 (u16 x).
Proof. unfold is_u16, u16. apply Z.mod_pos_bound. lia. Qed.

Lemma u16_id x : is_u16 x -> u16 x = x.
Proof. unfold is_u16, u16. intros H. apply Z.mod_small. exact H. Qed.

Lemma uint32_id x : 0 <= x < 4294967296 -> uint32 x = x.
Proof. unfold uint32. intros H. apply Z.mod_small. exact H. Qed.

Lemma uint32_u16 x : uint32 (u16 x) = u16 x.
Proof. apply uint32_id. pose proof (u16_range x) as H. unfold is_u16 in H. lia. Qed.

Lemma len_nonneg {A} (l : list A) : 0 <= len l.
Proof. unfold len. lia. Qed.

Lemma holds_lookup q i x : holds q i x = true <-> q !! Z.to_nat i = Some x.
Proof.
  unfold holds. destruct (q !! Z.to_nat i) as [v|]; split; intros H;
    try discriminate.
  - apply Z.eqb_eq in H. congruence.
  - injection H as ->. apply Z.eqb_refl.
Qed.

(** ** The acknowledgement bits ([prepareAckBits]) *)

Lemma prepareAckBits_loop_bits c ack fuel :
  forall i acc k,
    0 <= i -> i + Z.of_nat fuel = 32 -> 0 <= k ->
    Z.testbit (prepareAckBits_loop fuel c ack i (uint32 (2 ^ i)) acc) k
    = Z.testbit acc k || ((i <=? k) && (k <? 32) && recorded c ack k).
Proof.
  induction fuel as [|fuel IH]; intros i acc k Hi Hfuel Hk.
  - simpl. destruct (Z.leb_spec i k), (Z.ltb_spec k 32); simpl;
      try lia; now rewrite orb_false_r.
  - cbn [prepareAckBits_loop]. unfold ACKBitsetSize.
    destruct (Z.ltb_spec i 32) as [Hlt|]; [|lia].
    assert (Hm : uint32 (2 ^ i) = 2 ^ i).
    { apply uint32_id. split; [apply Z.pow_nonneg; lia|].
      change 4294967296 with (2 ^ 32). apply Z.pow_lt_mono_r; lia. }
    assert (Hi1 : u16 (i + 1) = i + 1) by (apply u16_id; unfold is_u16; lia).
    rewrite Hi1.
    assert (Hnext : uint32 (Z.shiftl (uint32 (2 ^ i)) 1) = uint32 (2 ^ (i + 1))).
    { rewrite Hm, Z.shiftl_mul_pow2 by lia.
      rewrite Z.pow_add_r by lia. reflexivity. }
    rewrite Hnext.
    rewrite IH by lia.
    fold (recorded c ack i). rewrite Hm.
    destruct (Z.eq_dec k i) as [->|Hne].
    + replace (i + 1 <=? i) with false by (symmetry; apply Z.leb_gt; lia).
      rewrite Z.leb_refl.
      replace (i <? 32) with true by (symmetry; apply Z.ltb_lt; lia).
      destruct (recorded c ack i); simpl.
      * rewrite Z.lor_spec, Z.pow2_bits_eqb, Z.eqb_refl by lia.
        now rewrite !orb_true_r.
      * now rewrite !orb_false_r.
    + assert (Hle : (i + 1 <=? k) = (i <=? k)).
      { destruct (Z.leb_spec (i + 1) k), (Z.leb_spec i k); try reflexivity; lia. }
      rewrite Hle.
      destruct (recorded c ack i); simpl; [|reflexivity].
      rewrite Z.lor_spec, Z.pow2_bits_eqb by lia.
      replace (i =? k) with false by (symmetry; apply Z.eqb_neq; lia).
      now rewrite orb_false_r.
Qed.

Lemma prepareAckBits_bits c ack k :
  0 <= k ->
  Z.testbit (prepareAckBits c ack) k = (k <? 32) && recorded c ack k.
Proof.
  intros Hk. unfold prepareAckBits.
  change (prepareAckBits_loop (Z.to_nat ACKBitsetSize) c ack 0 1 0)
    with (prepareAckBits_loop (Z.to_nat ACKBitsetSize) c ack 0 (uint32 (2 ^ 0)) 0).
  rewrite prepareAckBits_loop_bits by (unfold ACKBitsetSize; lia).
  rewrite Z.bits_0. simpl.
  replace (0 <=? k) with true by (symmetry; apply Z.leb_le; lia).
  reflexivity.
Qed.

Lemma prepareAckBits_range c ack : 0 <= prepareAckBits c ack < 2 ^ 32.
Proof.
  assert (H : prepareAckBits c ack mod 2 ^ 32 = prepareAckBits c ack).
  { apply Z.bits_inj'. intros n Hn.
    destruct (Z.lt_ge_cases n 32) as [Hlt|Hge].
    - now rewrite Z.mod_pow2_bits_low by lia.
    - rewrite Z.mod_pow2_bits_high by lia.
      rewrite prepareAckBits_bits by lia.
      destruct (Z.ltb_spec n 32); [lia|reflexivity]. }
  rewrite <- H. apply Z.mod_pos_bound. lia.
Qed.

(** C5.  [prepareAckBits ack] is a 32-bit value whose bit [k], for
    [0 <= k < 32], is set exactly when the receive slot of sequence [ack - k]
    (slot [(ack - k) mod W_r], the subtraction taken on 16 bits) holds the tag
    [ack - k]; the bit of a sequence that is not recorded is 0. *)
Theorem prepareAckBits_spec (c : Conn) (ack k : Z) :
  0 < len (rq c) < 65536 ->
  0 <= k < 32 ->
  (Z.testbit (prepareAckBits c ack) k = true
   <-> rq c !! Z.to_nat (u16 (ack - k) mod len (rq c)) = Some (u16 (ack - k)))
  /\ 0 <= prepareAckBits c ack < 2 ^ 32.
Proof.
  intros Hlen Hk. split; [|apply prepareAckBits_range].
  rewrite prepareAckBits_bits by lia.
  destruct (Z.ltb_spec k 32); [|lia]. simpl.
  unfold recorded. rewrite uint32_u16, (u16_id (len (rq c))) by (unfold is_u16; lia).
  apply holds_lookup.
Qed.

(** ** The cursor loops return *)

Lemma seqSpace_Z : Z.of_nat seqSpace = 65536.
Proof. unfold seqSpace. lia. Qed.

(** From here on [seqSpace] is only used through [seqSpace_Z]. *)
Opaque seqSpace.

(** A ring of fewer than 2^16 slots cannot hold every sequence in its slot:
    sequences [0] and [len q] share slot [0]. *)
Lemma ring_not_full (q : list Z) :
  0 < len q < 65536 ->
  ~ (forall v, is_u16 v -> holds q (v mod len q) (uint32 v) = true).
Proof.
  intros Hlen Hall.
  pose proof (Hall 0 ltac:(unfold is_u16; lia)) as H0.
  pose proof (Hall (len q) ltac:(unfold is_u16; lia)) as H1.
  rewrite Z.mod_0_l in H0 by lia. rewrite Z.mod_same in H1 by lia.
  apply holds_lookup in H0. apply holds_lookup in H1.
  rewrite uint32_id in H0, H1 by lia. rewrite H0 in H1.
  injection H1 as H1. lia.
Qed.

Lemma u16_add_l a b : u16 (u16 a + b) = u16 (a + b).
Proof. unfold u16. apply Zplus_mod_idemp_l. Qed.

Lemma u16_reach l v : is_u16 v -> u16 (l + u16 (v - l)) = v.
Proof.
  intros Hv. unfold u16. rewrite Zplus_mod_idemp_r.
  replace (l + (v - l)) with v by lia. apply Z.mod_small. exact Hv.
Qed.

Lemma trackAcked_loop_None c ack fuel :
  forall l, is_u16 l ->
    trackAcked_loop fuel c ack l = None ->
    forall k, 0 <= k < Z.of_nat fuel ->
      holds (rq c) (u16 (l + k) mod u16 (len (rq c))) (uint32 (u16 (l + k))) = true.
Proof.
  induction fuel as [|fuel IH]; intros l Hl Hnone k Hk; [lia|].
  cbn [trackAcked_loop] in Hnone.
  destruct (l <=? ack); [|discriminate].
  destruct (holds (rq c) (l mod u16 (len (rq c))) (uint32 l)) eqn:Hh;
    [|discriminate]. simpl in Hnone.
  destruct (Z.eq_dec k 0) as [->|Hne].
  - rewrite Z.add_0_r, u16_id by exact Hl. exact Hh.
  - specialize (IH (u16 (l + 1)) (u16_range _) Hnone (k - 1) ltac:(lia)).
    rewrite u16_add_l in IH. replace (l + 1 + (k - 1)) with (l + k) in IH by lia.
    exact IH.
Qed.

(** [trackAcked] returns: its loop leaves within 2^16 turns. *)
Lemma trackAcked_total now (ack : Z) (c : Conn) :
  wf c -> exists lui', trackAcked now ack c = Done (set_ls now (set_lui lui' c)).
Proof.
  intros Hwf. unfold trackAcked.
  destruct (trackAcked_loop seqSpace c ack (lui c)) as [l|] eqn:Hloop; [eauto|].
  exfalso. apply (ring_not_full (rq c) (wf_rq c Hwf)). intros v Hv.
  pose proof (trackAcked_loop_None c ack seqSpace (lui c) (wf_lui c Hwf) Hloop
                (u16 (v - lui c))) as H.
  rewrite u16_reach, (u16_id (len (rq c))) in H
    by (try exact Hv; destruct (wf_rq c Hwf); unfold is_u16; lia).
  apply H. pose proof (u16_range (v - lui c)) as Hr.
  unfold is_u16 in Hr. rewrite seqSpace_Z. lia.
Qed.

Lemma trackUnacked_loop_None c fuel :
  forall o, is_u16 o ->
    trackUnacked_loop fuel c o = None ->
    forall k, 0 <= k < Z.of_nat fuel ->
      holds (wq c) (u16 (o + k) mod u16 (len (wq c))) (uint32 (u16 (o + k))) = true.
Proof.
  induction fuel as [|fuel IH]; intros o Ho Hnone k Hk; [lia|].
  cbn [trackUnacked_loop] in Hnone. cbv zeta in Hnone.
  destruct (holds (wq c) (o mod u16 (len (wq c))) (uint32 o)) eqn:Hh;
    [|discriminate]. simpl in Hnone.
  destruct (acked (entry c (o mod u16 (len (wq c))))); [|discriminate].
  simpl in Hnone.
  destruct (Z.eq_dec k 0) as [->|Hne].
  - rewrite Z.add_0_r, u16_id by exact Ho. exact Hh.
  - specialize (IH (u16 (o + 1)) (u16_range _) Hnone (k - 1) ltac:(lia)).
    rewrite u16_add_l in IH. replace (o + 1 + (k - 1)) with (o + k) in IH by lia.
    exact IH.
Qed.

(** [trackUnacked] returns, and only moves [oui]. *)
Lemma trackUnacked_total (c : Conn) :
  wf c -> exists oui', trackUnacked c = Done (set_oui oui' c, [Broadcast]).
Proof.
  intros Hwf. unfold trackUnacked.
  destruct (trackUnacked_loop seqSpace c (oui c)) as [o|] eqn:Hloop; [eauto|].
  exfalso. apply (ring_not_full (wq c) (wf_wq c Hwf)). intros v Hv.
  pose proof (trackUnacked_loop_None c seqSpace (oui c) (wf_oui c Hwf) Hloop
                (u16 (v - oui c))) as H.
  rewrite u16_reach, (u16_id (len (wq c))) in H
    by (try exact Hv; destruct (wf_wq c Hwf); unfold is_u16; lia).
  apply H. pose proof (u16_range (v - oui c)) as Hr.
  unfold is_u16 in Hr. rewrite seqSpace_Z. lia.
Qed.

(** ** Applying the acknowledgement bits ([readAckBits]) *)

Lemma same_but_wqe_refl c : same_but_wqe c c.
Proof. split; [now destruct c|reflexivity]. Qed.

Lemma same_but_wqe_trans c1 c2 c3 :
  same_but_wqe c1 c2 -> same_but_wqe c2 c3 -> same_but_wqe c1 c3.
Proof.
  intros [H1 L1] [H2 L2]. split; [|congruence].
  rewrite H2 at 1. rewrite H1. reflexivity.
Qed.

Lemma same_but_wqe_wq c c' : same_but_wqe c c' -> wq c' = wq c.
Proof. intros [-> _]. reflexivity. Qed.

Lemma ackSlot_frame s c : same_but_wqe c (fst (ackSlot s c)).
Proof.
  unfold ackSlot. cbv zeta.
  destruct (negb _ || _); simpl; [apply same_but_wqe_refl|].
  split; [reflexivity|]. simpl. apply length_insert.
Qed.

Lemma ackSlot_skipped s c : skipped s c = true -> ackSlot s c = (c, []).
Proof. unfold skipped, ackSlot. cbv zeta. now intros ->. Qed.

Lemma entry_insert c i j e :
  entry (set_wqe (<[i := e]> (wqe c)) c) j
  = if decide (i = Z.to_nat j /\ (i < length (wqe c))%nat) then e else entry c j.
Proof.
  unfold entry. simpl. rewrite list_lookup_insert.
  destruct (decide _); reflexivity.
Qed.

(** Once visited, the slot of [s] is skipped. *)
Lemma ackSlot_settles s c :
  length (wqe c) = length (wq c) -> skipped s (fst (ackSlot s c)) = true.
Proof.
  intros Hlen. unfold ackSlot. cbv zeta.
  destruct (negb _ || _) eqn:Hskip; [exact Hskip|].
  apply orb_false_elim in Hskip as [Hh _]. apply negb_false_iff in Hh.
  unfold skipped. cbv zeta. cbn [fst wq set_wqe].
  rewrite Hh. simpl. rewrite entry_insert.
  apply holds_lookup in Hh. apply lookup_lt_Some in Hh.
  destruct (decide _) as [|Hn]; [reflexivity|].
  exfalso. apply Hn. split; [reflexivity|]. rewrite Hlen. exact Hh.
Qed.

(** A slot that is skipped stays so: [wq] is not written and [acked] is only
    ever set. *)
Lemma ackSlot_keeps_skipped s s' c :
  skipped s c = true -> skipped s (fst (ackSlot s' c)) = true.
Proof.
  intros Hs. unfold ackSlot. cbv zeta.
  destruct (negb _ || _); [exact Hs|].
  unfold skipped in *. cbv zeta in *. cbn [fst wq set_wqe].
  rewrite entry_insert. destruct (decide _); [|exact Hs].
  simpl. apply orb_true_r.
Qed.

Lemma ackAll_frame l : forall c, same_but_wqe c (fst (ackAll l c)).
Proof.
  induction l as [|s l IH]; intros c; simpl; [apply same_but_wqe_refl|].
  pose proof (ackSlot_frame s c) as H1.
  destruct (ackSlot s c) as [c1 put]. specialize (IH c1).
  destruct (ackAll l c1) as [c2 puts]. simpl in *.
  eapply same_but_wqe_trans; eassumption.
Qed.

Lemma ackAll_keeps_skipped s l :
  forall c, skipped s c = true -> skipped s (fst (ackAll l c)) = true.
Proof.
  induction l as [|s' l IH]; intros c Hs; simpl; [exact Hs|].
  pose proof (ackSlot_keeps_skipped s s' c Hs) as H1.
  destruct (ackSlot s' c) as [c1 put]. specialize (IH c1 H1).
  destruct (ackAll l c1) as [c2 puts]. exact IH.
Qed.

Lemma ackAll_settles l :
  forall c, length (wqe c) = length (wq c) ->
    forall s, In s l -> skipped s (fst (ackAll l c)) = true.
Proof.
  induction l as [|s' l IH]; intros c Hlen s Hin; [destruct Hin|].
  simpl. pose proof (ackSlot_settles s' c Hlen) as Hset.
  pose proof (ackSlot_frame s' c) as [Hf Hl].
  destruct (ackSlot s' c) as [c1 put] eqn:E1. simpl in Hset, Hf, Hl.
  assert (Hlen1 : length (wqe c1) = length (wq c1)).
  { rewrite Hl, Hlen. rewrite Hf. reflexivity. }
  pose proof (IH c1 Hlen1) as IH1.
  pose proof (ackAll_keeps_skipped s' l c1 Hset) as Hkeep.
  destruct (ackAll l c1) as [c2 puts]. simpl in *.
  destruct Hin as [<-|Hin]; [exact Hkeep|apply IH1, Hin].
Qed.

Lemma ackAll_skipped l :
  forall c, (forall s, In s l -> skipped s c = true) -> ackAll l c = (c, []).
Proof.
  induction l as [|s l IH]; intros c Hall; [reflexivity|].
  simpl. rewrite ackSlot_skipped by (apply Hall; now left).
  rewrite IH by (intros s' Hs'; apply Hall; now right). reflexivity.
Qed.

Lemma readAckBits_loop_ackAll fuel ack :
  forall idx ackBits c,
    readAckBits_loop fuel ack idx ackBits c
    = ackAll (ackTargets fuel ack idx ackBits) c.
Proof.
  induction fuel as [|fuel IH]; intros idx ackBits c; [reflexivity|].
  cbn [readAckBits_loop ackTargets].
  destruct (idx <? ACKBitsetSize); [|reflexivity].
  destruct (Z.land ackBits 1 =? 0).
  - rewrite IH. simpl. now destruct (ackAll _ c).
  - simpl.
    destruct (ackSlot (u16 (ack - idx)) c) as [c1 put].
    now rewrite IH.
Qed.

Lemma land_1_testbit b : (Z.land b 1 =? 0) = negb (Z.testbit b 0).
Proof.
  change 1 with (Z.ones 1). rewrite Z.land_ones by lia.
  rewrite <- Z.bit0_mod. now destruct (Z.testbit b 0).
Qed.

(** A target is a sequence [ack - k] whose bit [k] is set. *)
Lemma ackTargets_In ack s fuel :
  forall idx ackBits, 0 <= idx ->
    In s (ackTargets fuel ack idx ackBits) ->
    exists t, 0 <= t /\ idx + t < 32 /\ Z.testbit ackBits t = true
              /\ s = u16 (ack - (idx + t)).
Proof.
  induction fuel as [|fuel IH]; intros idx ackBits Hidx Hin; [destruct Hin|].
  cbn [ackTargets] in Hin. unfold ACKBitsetSize in Hin.
  destruct (Z.ltb_spec idx 32) as [Hlt|]; [|destruct Hin].
  apply in_app_or in Hin as [Hin|Hin].
  - rewrite land_1_testbit in Hin.
    destruct (Z.testbit ackBits 0) eqn:Hb; simpl in Hin; [|destruct Hin].
    destruct Hin as [<-|[]]. exists 0. rewrite Z.add_0_r. auto with lia.
  - rewrite u16_id in Hin by (unfold is_u16; lia).
    apply IH in Hin as (t & Ht & Hlt' & Hbit & ->); [|lia].
    exists (t + 1). rewrite Z.shiftr_spec in Hbit by lia.
    repeat split; try lia; [exact Hbit|]. f_equal. lia.
Qed.

(** What [ackAll] does to one entry of [wqe]: nothing, or, for an entry that
    was not acked and whose slot holds a target, the release of its buffer. *)
Lemma ackAll_entry l :
  forall c i e, wqe c !! i = Some e ->
    wqe (fst (ackAll l c)) !! i = Some e
    \/ (acked e = false
        /\ wqe (fst (ackAll l c)) !! i
           = Some {| buf := None; acked := true; written := written e;
                     resent := resent e |}
        /\ exists s, In s l /\ i = Z.to_nat (s mod u16 (len (wq c)))
                     /\ holds (wq c) (s mod u16 (len (wq c))) (uint32 s) = true).
Proof.
  induction l as [|s l IH]; intros c i e He; [now left|].
  simpl. pose proof (ackSlot_frame s c) as Hframe.
  apply same_but_wqe_wq in Hframe.
  unfold ackSlot in *. cbv zeta in *.
  destruct (negb _ || _) eqn:Hskip.
  - specialize (IH c i e He). destruct (ackAll l c) as [c2 puts]. simpl in *.
    destruct IH as [IH|(Ha & Hw & s' & Hin & Hi & Hh)]; [now left|right].
    repeat split; try assumption. exists s'. auto.
  - apply orb_false_elim in Hskip as [Hh Hacked].
    apply negb_false_iff in Hh.
    set (i0 := Z.to_nat (s mod u16 (len (wq c)))) in *.
    set (e0 := {| buf := None; acked := true;
                  written := written (entry c (s mod u16 (len (wq c))));
                  resent := resent (entry c (s mod u16 (len (wq c)))) |}) in *.
    set (c1 := set_wqe (<[i0 := e0]> (wqe c)) c) in *.
    destruct (decide (i0 = i)) as [Heq|Hne].
    + assert (He0 : wqe c1 !! i = Some e0).
      { subst c1. simpl. rewrite <- Heq. apply list_lookup_insert_eq.
        rewrite Heq. eapply lookup_lt_Some, He. }
      assert (Hentry : entry c (s mod u16 (len (wq c))) = e).
      { unfold entry. fold i0. rewrite Heq, He. reflexivity. }
      specialize (IH c1 i e0 He0). destruct (ackAll l c1) as [c2 puts].
      simpl in *. right. rewrite Hentry in Hacked. split; [exact Hacked|].
      split.
      * destruct IH as [IH|(Ha & _)]; [|discriminate Ha].
        rewrite IH. subst e0. now rewrite Hentry.
      * exists s. split; [now left|]. split; [now symmetry|exact Hh].
    + assert (He1 : wqe c1 !! i = Some e).
      { subst c1. simpl. now rewrite list_lookup_insert_ne. }
      specialize (IH c1 i e He1). destruct (ackAll l c1) as [c2 puts].
      simpl in *. destruct IH as [IH|(Ha & Hw & s' & Hin & Hi & Hh')];
        [now left|right].
      repeat split; try assumption. exists s'. auto.
Qed.

(** C6.  Applying the same [(ack, ackBits)] a second time changes nothing:
    the connection (tags, acked flags, buffers and all the rest) is the one
    the first application left, and no buffer is released again.  The first
    application does not write [wq], and leaves an entry of [wqe] as it was
    unless the entry was not acked and its slot holds the tag [ack - k] of a
    set bit [k]; such an entry becomes acked and loses its buffer. *)
Theorem readAckBits_idempotent (c : Conn) (ack ackBits : Z) :
  0 < len (wq c) < 65536 ->
  length (wqe c) = length (wq c) ->
  let c1 := fst (readAckBits ack ackBits c) in
  readAckBits ack ackBits c1 = (c1, [])
  /\ wq c1 = wq c
  /\ forall i e, wqe c !! i = Some e ->
       wqe c1 !! i = Some e
       \/ (acked e = false
           /\ wqe c1 !! i = Some {| buf := None; acked := true;
                                    written := written e; resent := resent e |}
           /\ exists k, 0 <= k < 32 /\ Z.testbit ackBits k = true
                        /\ i = Z.to_nat (u16 (ack - k) mod len (wq c))
                        /\ wq c !! i = Some (u16 (ack - k))).
Proof.
  intros Hsize Hlen c1. subst c1. unfold readAckBits.
  rewrite !readAckBits_loop_ackAll.
  set (l := ackTargets (Z.to_nat ACKBitsetSize) ack 0 ackBits).
  split; [|split].
  - apply ackAll_skipped. intros s Hs. now apply ackAll_settles.
  - apply same_but_wqe_wq, ackAll_frame.
  - intros i e He. destruct (ackAll_entry l c i e He)
      as [H|(Ha & Hw & s & Hin & Hi & Hh)]; [now left|right].
    split; [exact Ha|]. split; [exact Hw|].
    apply ackTargets_In in Hin as (t & Ht & Hlt & Hbit & ->); [|lia].
    assert (Hu : u16 (len (wq c)) = len (wq c)).
    { apply u16_id. unfold is_u16. lia. }
    exists t. rewrite Z.add_0_l in *. rewrite Hu in *.
    rewrite uint32_u16 in Hh. apply holds_lookup in Hh. rewrite <- Hi in Hh.
    repeat split; try lia; assumption.
Qed.

(** ** The send path *)

Section SendPath.

Variable GT : Z -> Z -> bool.
Variable AppendTo : PacketHeader -> bytes -> bytes.
Variable isEOF : error -> bool.
Variable now : Z.

Lemma wait_spec (wakeups : list Conn) :
  forall c,
    match waitUntilReaderAvailable GT wakeups c with
    | Done (cw, rest) =>
        mustWait GT cw = false
        /\ exists pre, c :: wakeups = pre ++ cw :: rest
                       /\ Forall (fun x => mustWait GT x = true) pre
    | Blocked => Forall (fun x => mustWait GT x = true) (c :: wakeups)
    | OutOfFuel => False
    end.
Proof.
  induction wakeups as [|c' rest IH]; intros c; cbn [waitUntilReaderAvailable];
    destruct (mustWait GT c) eqn:Hc.
  - repeat constructor. exact Hc.
  - split; [exact Hc|]. exists []. split; [reflexivity|constructor].
  - specialize (IH c').
    destruct (waitUntilReaderAvailable GT rest c') as [[cw rest']| |].
    + destruct IH as (Hcw & pre & Heq & Hpre). split; [exact Hcw|].
      exists (c :: pre). split; [simpl; now rewrite Heq|now constructor].
    + now constructor.
    + exact IH.
  - split; [exact Hc|]. exists []. split; [reflexivity|constructor].
Qed.

(** A writer that finds the gate shut at each of the states [pre] and open
    at [cw] leaves the wait at [cw]. *)
Lemma wait_through (pre : list Conn) :
  forall c cw rest,
    Forall (fun x => mustWait GT x = true) (c :: pre) ->
    mustWait GT cw = false ->
    waitUntilReaderAvailable GT (pre ++ cw :: rest) c = Done (cw, rest).
Proof.
  induction pre as [|p pre IH]; intros c cw rest Hall Hcw;
    inversion Hall as [|? ? Hc Hpre]; subst; simpl; rewrite Hc.
  - destruct rest; simpl; now rewrite Hcw.
  - now apply IH.
Qed.

Lemma wait_open (wakeups : list Conn) (c : Conn) :
  mustWait GT c = false ->
  waitUntilReaderAvailable GT wakeups c = Done (c, wakeups).
Proof. intros H. destruct wakeups; simpl; now rewrite H. Qed.

Lemma mustWait_false (c : Conn) :
  mustWait GT c = false
  <-> die c = true
      \/ GT (u16 (wi c + 1)) (u16 (oui c + u16 (len (rq c)))) = false.
Proof.
  unfold mustWait. destruct (die c); simpl; split; auto.
  - intros [H|H]; [discriminate|exact H].
Qed.

Lemma mustWait_true (c : Conn) :
  mustWait GT c = true
  <-> die c = false
      /\ GT (u16 (wi c + 1)) (u16 (oui c + u16 (len (rq c)))) = true.
Proof.
  unfold mustWait. destruct (die c); simpl; split; try tauto.
  - discriminate.
  - intros [H _]. discriminate.
Qed.

(** C1, as the code has it.  A reliable write waits at the writer gate as
    long as the connection is open and [GT(wi + 1, oui + W_r)] holds.  When
    it leaves the wait, at a state [cw], the connection is closed or
    [GT(wi + 1, oui + W_r)] is false; it then takes [idx = wi] and advances
    [wi] in the same critical section, and reports [ok = !die].  So every
    sequence handed to a write that goes on ([ok]) was taken with
    [GT(wi + 1, oui + W_r)] false; on a closed connection the sequence is
    taken all the same, and the write fails.  A writer with no wake-up left
    is still waiting. *)
Theorem writer_gate (c : Conn) (wakeups : list Conn) :
  match waitForNextWriteDetails GT c wakeups with
  | Done (idx, ack, ackBits, ok, c', rest) =>
      exists pre cw,
        c :: wakeups = pre ++ cw :: rest
        /\ Forall (fun x =>
                     die x = false
                     /\ GT (u16 (wi x + 1)) (u16 (oui x + u16 (len (rq x))))
                        = true) pre
        /\ (die cw = true
            \/ GT (u16 (wi cw + 1)) (u16 (oui cw + u16 (len (rq cw)))) = false)
        /\ idx = wi cw
        /\ c' = set_wi (u16 (wi cw + 1)) cw
        /\ ok = negb (die cw)
        /\ (ok = true ->
            GT (u16 (idx + 1)) (u16 (oui cw + u16 (len (rq cw)))) = false)
  | Blocked =>
      Forall (fun x =>
                die x = false
                /\ GT (u16 (wi x + 1)) (u16 (oui x + u16 (len (rq x)))) = true)
        (c :: wakeups)
  | OutOfFuel => False
  end.
Proof.
  unfold waitForNextWriteDetails.
  pose proof (wait_spec wakeups c) as H.
  destruct (waitUntilReaderAvailable GT wakeups c) as [[cw rest]| |]; simpl.
  - destruct H as (Hcw & pre & Heq & Hpre).
    exists pre, cw. apply mustWait_false in Hcw.
    repeat split; try assumption; try reflexivity.
    + eapply Forall_impl; [exact Hpre|]. intros x Hx. now apply mustWait_true.
    + intros Hok. apply negb_true_iff in Hok.
      destruct Hcw as [Hd|Hg]; [congruence|exact Hg].
  - eapply Forall_impl; [exact H|]. intros x Hx. now apply mustWait_true.
  - exact H.
Qed.

(** C2, as the code has it.  [Close] leaves the connection closed.  A
    reliable write on a closed connection returns [io.EOF] and calls the
    transport not at all; so does a reliable writer that was waiting at the
    gate and is woken on a closed connection.  (It still takes a sequence:
    [wi] advances.) *)
Theorem reliable_write_after_close (payload : bytes) (c : Conn)
  (pre : list Conn) (cw : Conn) (rest : list Conn) :
  die (fst (Close c)) = true
  /\ (die c = true ->
      forall wakeups,
        WriteReliablePacket GT AppendTo isEOF now payload c wakeups
        = Done (Some EOF, set_wi (u16 (wi c + 1)) c, []))
  /\ (Forall (fun x => mustWait GT x = true) (c :: pre) ->
      die cw = true ->
      WriteReliablePacket GT AppendTo isEOF now payload c (pre ++ cw :: rest)
      = Done (Some EOF, set_wi (u16 (wi cw + 1)) cw, [])).
Proof.
  split; [|split].
  - unfold Close, close. destruct (die c) eqn:Hd; simpl; [exact Hd|reflexivity].
  - intros Hd wakeups.
    unfold WriteReliablePacket, writePacket, waitForNextWriteDetails.
    rewrite wait_open by (apply mustWait_false; now left).
    simpl. rewrite Hd. reflexivity.
  - intros Hpre Hd.
    unfold WriteReliablePacket, writePacket, waitForNextWriteDetails.
    rewrite wait_through by (try assumption; apply mustWait_false; now left).
    simpl. rewrite Hd. reflexivity.
Qed.

Lemma writePacket_unreliable (payload : bytes) (c : Conn) (wakeups : list Conn) :
  WriteUnreliablePacket GT AppendTo isEOF now payload c wakeups
  = (c2 ← trackAcked now (u16 (ri c - 1)) c;
     Done (write GT AppendTo isEOF now
             {| Sequence := 0; ACK := u16 (ri c - 1);
                ACKBits := prepareAckBits c (u16 (ri c - 1));
                Unordered := true; Empty := false |} payload c2)).
Proof.
  unfold WriteUnreliablePacket, writePacket.
  cbv beta iota zeta delta [nextAckDetails mbind outcome_bind negb].
  reflexivity.
Qed.

(** C9, as the code has it.  An unreliable write reads no send sequence:
    the header it transmits has [Sequence = 0], the ack details of the
    receive window, and [Unordered] set.  It calls the transport once with
    the header and the payload and returns the buffer to the pool; [wi] and
    the send window ([wq], [wqe]) are as before, only [lui] and [ls] may
    have moved ([trackAcked]). *)
Theorem unreliable_write (payload : bytes) (c : Conn) (wakeups : list Conn) :
  wf c ->
  let ack := u16 (ri c - 1) in
  let header := {| Sequence := 0; ACK := ack;
                   ACKBits := prepareAckBits c ack;
                   Unordered := true; Empty := false |} in
  let b := AppendTo header [] ++ payload in
  exists lui' err c',
    WriteUnreliablePacket GT AppendTo isEOF now payload c wakeups
    = Done (err, c', [WriteTo b; PoolPut {| B := b |}])
    /\ c' = set_ls now (set_lui lui' c)
    /\ wi c' = wi c /\ wq c' = wq c /\ wqe c' = wqe c.
Proof.
  intros Hwf ack header b.
  destruct (trackAcked_total now ack c Hwf) as [lui' Hta].
  rewrite writePacket_unreliable. fold ack. rewrite Hta.
  fold header. cbn [mbind outcome_bind]. unfold write.
  cbn [Unordered negb header]. fold b.
  exists lui'.
  destruct (transmit _ (B _)) as [e|]; [destruct (isEOF e)|]; simpl;
    eexists; eexists; repeat split.
Qed.

End SendPath.

(** ** Closing *)

(** C8, as the code has it.  [Close] releases nothing: the first call sets
    [die], closes the exit channel and broadcasts on the gate; a later call
    does nothing.  The send window, with the buffers its slots retain, is as
    before, and no buffer goes to the pool. *)
Theorem Close_keeps_buffers (c : Conn) :
  Close c = (if die c then (c, [])
             else (set_die true c, [CloseExit; Broadcast]))
  /\ wq (fst (Close c)) = wq c
  /\ wqe (fst (Close c)) = wqe c
  /\ forall b, ~ In (PoolPut b) (snd (Close c)).
Proof.
  unfold Close, close. destruct (die c); simpl; repeat split; auto;
    intros b H; simpl in H; intuition discriminate.
Qed.

(** ** [trackAcked] compares [lui] and [ack] as plain integers *)

(** When [ack] is numerically below [lui], [trackAcked] does not move [lui],
    whatever the receive window records. *)
Lemma trackAcked_numeric now (ack : Z) (c : Conn) :
  ack < lui c ->
  trackAcked now ack c = Done (set_ls now (set_lui (lui c) c)).
Proof.
  intros Hlt. unfold trackAcked.
  pose proof seqSpace_Z as HZ. destruct seqSpace as [|n]; [simpl in HZ; lia|].
  cbn [trackAcked_loop].
  destruct (Z.leb_spec (lui c) ack); [lia|reflexivity].
Qed.

(** C3, at the wrap of the sequence space.  On [wrapConn] the slot of [lui]
    records [lui = 65535], and [ack = ri - 1 = 0] is after [lui] in
    serial-number order; [trackAcked 0] leaves [lui] at [65535]. *)
Theorem trackAcked_wrapped :
  rq wrapConn !! Z.to_nat (lui wrapConn mod len (rq wrapConn))
  = Some (lui wrapConn)
  /\ u16 (ri wrapConn - 1) = 0
  /\ LE16 (lui wrapConn) 0 = true
  /\ GT16 0 (lui wrapConn) = true
  /\ trackAcked 7 0 wrapConn = Done (set_ls 7 wrapConn).
Proof.
  repeat split; try reflexivity.
  all: rewrite trackAcked_numeric by (simpl; lia); reflexivity.
Qed.

(** ** The receive path *)

Lemma ackAll_events l :
  forall c e, In e (snd (ackAll l c)) -> exists b, e = PoolPut b.
Proof.
  induction l as [|s l IH]; intros c e Hin; [destruct Hin|].
  simpl in Hin. destruct (ackSlot s c) as [c1 put] eqn:E1.
  specialize (IH c1 e). destruct (ackAll l c1) as [c2 puts]. simpl in *.
  apply in_app_or in Hin as [Hin|Hin]; [|now apply IH].
  unfold ackSlot in E1. cbv zeta in E1.
  destruct (negb _ || _); injection E1 as <- <-; [destruct Hin|].
  destruct (buf _); [|destruct Hin]. destruct Hin as [<-|[]]. eauto.
Qed.

Lemma readAckBits_frame ack ackBits c :
  same_but_wqe c (fst (readAckBits ack ackBits c)).
Proof. unfold readAckBits. rewrite readAckBits_loop_ackAll. apply ackAll_frame. Qed.

Lemma readAckBits_events ack ackBits c e :
  In e (snd (readAckBits ack ackBits c)) -> exists b, e = PoolPut b.
Proof. unfold readAckBits. rewrite readAckBits_loop_ackAll. apply ackAll_events. Qed.

Lemma same_but_wqe_wf c c' : same_but_wqe c c' -> wf c -> wf c'.
Proof.
  intros [Heq Hlen] [].
  split; rewrite ?Hlen; rewrite Heq; simpl; assumption.
Qed.

Lemma holds_tag (q : list Z) (s : Z) :
  0 < len q < 65536 -> is_u16 s ->
  holds q (s mod u16 (len q)) (uint32 s)
  = bool_decide (q !! Z.to_nat (s mod len q) = Some s).
Proof.
  intros Hq Hs. rewrite u16_id, uint32_id by (unfold is_u16 in *; lia).
  destruct (holds q (s mod len q) s) eqn:Hh; symmetry.
  - apply bool_decide_eq_true, holds_lookup, Hh.
  - apply bool_decide_eq_false. intros H. apply holds_lookup in H. congruence.
Qed.

Section ReceivePath.

Variable GT : Z -> Z -> bool.
Variable AppendTo : PacketHeader -> bytes -> bytes.
Variable isEOF : error -> bool.
Variable now : Z.

(** C7.  A reliable packet whose sequence the receive window already
    records is dropped after its ack bits have been applied: [Read] returns
    nil at once, [ri] and every receive slot are as before, and the only
    events are the buffers that the ack bits release; the packet handler is
    not called. *)
Theorem duplicate_receive (fuel : nat) (header : PacketHeader)
  (payload : bytes) (c : Conn) (wakeups : list Conn) :
  0 < len (rq c) < 65536 ->
  Unordered header = false ->
  is_u16 (Sequence header) ->
  rq c !! Z.to_nat (Sequence header mod len (rq c)) = Some (Sequence header) ->
  exists c' evs,
    Read GT AppendTo isEOF now fuel header payload c wakeups
    = Done (None, c', evs)
    /\ (c', evs) = readAckBits (ACK header) (ACKBits header) c
    /\ ri c' = ri c
    /\ rq c' = rq c
    /\ forall s p, ~ In (Handle s p) evs.
Proof.
  intros Hrq Hun Hs Hdup. unfold Read.
  pose proof (readAckBits_frame (ACK header) (ACKBits header) c) as [Hf _].
  pose proof (readAckBits_events (ACK header) (ACKBits header) c) as Hev.
  destruct (readAckBits (ACK header) (ACKBits header) c) as [c1 ev1].
  simpl in Hf, Hev.
  assert (Hrq1 : rq c1 = rq c) by (rewrite Hf; reflexivity).
  assert (Hri1 : ri c1 = ri c) by (rewrite Hf; reflexivity).
  rewrite Hun. cbn [negb]. unfold trackRead. cbv zeta.
  rewrite Hrq1, holds_tag, bool_decide_eq_true_2 by assumption.
  cbn [negb andb]. exists c1, ev1. repeat split; try assumption.
  intros s p Hin. apply Hev in Hin as [b Hb]. discriminate.
Qed.

(** *** What a write leaves alone *)

Lemma trackWrite_rx (idx : Z) (b : Buffer) (c : Conn) :
  rx_frame c (fst (trackWrite GT now idx b c))
  /\ forall e, In e (snd (trackWrite GT now idx b c)) -> exists b', e = PoolPut b'.
Proof.
  unfold trackWrite. cbv zeta. split.
  - destruct (GT _ _); simpl; repeat split.
  - cbn [snd]. intros e Hin. destruct (buf _); [|destruct Hin].
    destruct Hin as [<-|[]]. eauto.
Qed.

Lemma write_rx (header : PacketHeader) (payload : bytes) (c : Conn) :
  rx_frame c (snd (fst (write GT AppendTo isEOF now header payload c)))
  /\ forall s p,
       ~ In (Handle s p) (snd (write GT AppendTo isEOF now header payload c)).
Proof.
  unfold write. cbv zeta.
  set (b := {| B := AppendTo header (B poolGet) ++ payload |}).
  pose proof (trackWrite_rx (Sequence header) b c) as [Hf Hev].
  destruct (Unordered header); cbn [negb].
  - assert (Hsame : rx_frame c c) by (repeat split).
    destruct (transmit c (B b)) as [e|]; [destruct (isEOF e)|]; simpl;
      (split; [exact Hsame|]); intros s p H; intuition discriminate.
  - destruct (trackWrite GT now (Sequence header) b c) as [c1 put].
    simpl in Hf, Hev.
    assert (Hno : forall s p, ~ In (Handle s p) (put ++ [WriteTo (B b)] ++ [])).
    { intros s p Hin. apply in_app_or in Hin as [Hin|Hin].
      - apply Hev in Hin as [b' Hb]. discriminate.
      - simpl in Hin. intuition discriminate. }
    destruct (transmit c1 (B b)) as [e|]; [destruct (isEOF e)|]; simpl;
      (split; [exact Hf|exact Hno]).
Qed.

(** *** Standalone acks, with no other goroutine at work *)

Lemma createAck_alone (c : Conn) :
  createAckIfNecessary GT now c [] =
    if negb (received_loop (Z.to_nat ACKBitsetSize) c (lui c) 0)
    then Done (zeroHeader, false, c, [])
    else
      let c1 := set_ls now (set_lui (u16 (lui c + ACKBitsetSize)) c) in
      if mustWait GT c1 then Blocked
      else
        let c2 := set_wi (u16 (wi c + 1)) c1 in
        let ack := u16 (u16 (lui c + ACKBitsetSize) - 1) in
        Done ({| Sequence := wi c; ACK := ack;
                 ACKBits := prepareAckBits c2 ack;
                 Unordered := false; Empty := true |},
              negb (die c), c2, []).
Proof.
  unfold createAckIfNecessary.
  destruct (negb (received_loop _ c (lui c) 0)); [reflexivity|].
  cbv zeta. cbn [waitUntilReaderAvailable].
  destruct (mustWait GT _); reflexivity.
Qed.

Lemma received_loop_rq (c c' : Conn) (fuel : nat) :
  rq c' = rq c ->
  forall l i, received_loop fuel c' l i = received_loop fuel c l i.
Proof.
  intros Hrq. induction fuel as [|fuel IH]; intros l i; [reflexivity|].
  cbn [received_loop]. rewrite Hrq, IH. reflexivity.
Qed.

(** What the loop of [writeAcksIfNecessary] leaves alone. *)
Lemma writeAcks_alone_rx (fuel : nat) :
  forall c,
    match writeAcksIfNecessary GT AppendTo isEOF now fuel c [] with
    | Done (r, c', rest, evs) =>
        rq c' = rq c /\ ri c' = ri c /\ ph c' = ph c
        /\ forall s p, ~ In (Handle s p) evs
    | _ => True
    end.
Proof.
  induction fuel as [|fuel IH]; intros c; [exact I|].
  cbn [writeAcksIfNecessary]. rewrite createAck_alone.
  destruct (negb (received_loop _ c (lui c) 0)).
  { cbn. repeat split. intros s p []. }
  cbv zeta. destruct (mustWait GT _); [exact I|].
  cbn [mbind outcome_bind]. destruct (die c); cbn [negb].
  { repeat split. intros s p []. }
  match goal with |- context [write _ _ _ _ ?h ?p ?x] =>
    pose proof (write_rx h p x) as [Hf Hno];
    destruct (write GT AppendTo isEOF now h p x) as [[err c2] evs] end.
  unfold rx_frame in Hf. simpl in Hf, Hno.
  destruct Hf as (Hrq & Hri & _ & Hph & _).
  destruct err as [e|]; [repeat split; assumption|].
  specialize (IH c2).
  destruct (writeAcksIfNecessary GT AppendTo isEOF now fuel c2 [])
    as [[[[r c3] rest] evs']| |]; cbn; try exact I.
  destruct IH as (Hrq' & Hri' & Hph' & Hno').
  split; [congruence|]. split; [congruence|]. split; [congruence|].
  intros s p Hin. apply in_app_or in Hin as [Hin|Hin];
    [eapply Hno|eapply Hno']; eassumption.
Qed.

Lemma received_loop_true (c : Conn) (l : Z) (fuel : nat) :
  forall i, 0 <= i -> i + Z.of_nat fuel = 32 ->
    received_loop fuel c l i = true
    <-> forall k, i <= k < 32 ->
          holds (rq c) (u16 (l + k) mod u16 (len (rq c)))
            (uint32 (u16 (l + k))) = true.
Proof.
  induction fuel as [|fuel IH]; intros i Hi Hfuel.
  - simpl. split; [intros _ k Hk; lia|reflexivity].
  - cbn [received_loop]. unfold ACKBitsetSize.
    destruct (Z.ltb_spec i 32); [|lia].
    destruct (holds (rq c) (u16 (l + i) mod u16 (len (rq c)))
                (uint32 (u16 (l + i)))) eqn:Hh; cbn [negb].
    + rewrite u16_id by (unfold is_u16; lia). rewrite IH by lia.
      split; intros Hall k Hk.
      * destruct (Z.eq_dec k i) as [->|]; [exact Hh|apply Hall; lia].
      * apply Hall. lia.
    + split; [discriminate|]. intros Hall. rewrite Hall in Hh by lia.
      discriminate.
Qed.

(** While the loop of [writeAcksIfNecessary] goes on, the windows of 32
    sequences from [lui] on are all recorded. *)
Lemma writeAcks_alone_fuel (fuel : nat) :
  forall c, is_u16 (lui c) ->
    writeAcksIfNecessary GT AppendTo isEOF now fuel c [] = OutOfFuel ->
    forall j, 0 <= j < Z.of_nat fuel ->
      received_loop (Z.to_nat ACKBitsetSize) c (u16 (lui c + 32 * j)) 0 = true.
Proof.
  induction fuel as [|fuel IH]; intros c Hlui Hout j Hj; [lia|].
  cbn [writeAcksIfNecessary] in Hout. rewrite createAck_alone in Hout.
  destruct (received_loop _ c (lui c) 0) eqn:Hrec; cbn [negb] in Hout;
    [|discriminate].
  cbv zeta in Hout. destruct (mustWait GT _); [discriminate|].
  cbn [mbind outcome_bind] in Hout.
  destruct (die c); cbn [negb] in Hout; [discriminate|].
  match type of Hout with context [write _ _ _ _ ?h ?p ?x] =>
    pose proof (write_rx h p x) as [Hf _];
    destruct (write GT AppendTo isEOF now h p x) as [[err c2] evs] end.
  unfold rx_frame in Hf. simpl in Hf. destruct Hf as (Hrq & _ & Hl2 & _).
  destruct err as [e|]; [discriminate|].
  destruct (Z.eq_dec j 0) as [->|Hne].
  - rewrite Z.mul_0_r, Z.add_0_r, u16_id by exact Hlui. exact Hrec.
  - destruct (writeAcksIfNecessary GT AppendTo isEOF now fuel c2 [])
      as [[[[r c3] rest] evs']| |] eqn:Hrec2; try discriminate.
    assert (Hl2' : is_u16 (lui c2)) by (rewrite Hl2; apply u16_range).
    specialize (IH c2 Hl2' Hrec2 (j - 1) ltac:(lia)).
    rewrite (received_loop_rq c c2) in IH by exact Hrq.
    rewrite Hl2, u16_add_l in IH. unfold ACKBitsetSize in IH at 2.
    replace (lui c + 32 + 32 * (j - 1)) with (lui c + 32 * j) in IH by lia.
    exact IH.
Qed.

(** With 2048 turns the loop of [writeAcksIfNecessary] has been through the
    whole sequence space: it returns, or waits at the gate. *)
Lemma writeAcks_alone_returns (fuel : nat) (c : Conn) :
  0 < len (rq c) < 65536 -> is_u16 (lui c) -> 2048 <= Z.of_nat fuel ->
  writeAcksIfNecessary GT AppendTo isEOF now fuel c [] <> OutOfFuel.
Proof.
  intros Hrq Hlui Hfuel Hout.
  apply (ring_not_full (rq c) Hrq). intros v Hv.
  pose proof (u16_range (v - lui c)) as Hd. unfold is_u16 in Hd.
  set (d := u16 (v - lui c)) in *.
  pose proof (writeAcks_alone_fuel fuel c Hlui Hout (d / 32)
                ltac:(split; [apply Z.div_pos; lia
                             |assert (d / 32 < 2048)
                               by (apply Z.div_lt_upper_bound; lia); lia]))
    as Hwin.
  pose proof (proj1 (received_loop_true c _ (Z.to_nat ACKBitsetSize) 0
                       ltac:(lia) eq_refl) Hwin) as Hall.
  clear Hwin. rename Hall into Hwin.
  specialize (Hwin (d mod 32) ltac:(pose proof (Z.mod_pos_bound d 32); lia)).
  rewrite u16_add_l in Hwin.
  replace (lui c + 32 * (d / 32) + d mod 32) with (lui c + d) in Hwin
    by (pose proof (Z.div_mod d 32); lia).
  unfold d in Hwin. rewrite u16_reach in Hwin by exact Hv.
  rewrite u16_id in Hwin by (unfold is_u16; lia). exact Hwin.
Qed.

(** Past the receive tracking, [Read] moves [oui], writes the standalone acks
    that are due and delivers the packet. *)
Lemma Read_past_tracking (fuel : nat) (header : PacketHeader) (payload : bytes)
  (c c1 c2 : Conn) (ev1 : list event) (wakeups : list Conn) :
  readAckBits (ACK header) (ACKBits header) c = (c1, ev1) ->
  (if negb (Unordered header) then trackRead GT (Sequence header) c1
   else (true, c1)) = (true, c2) ->
  Read GT AppendTo isEOF now fuel header payload c wakeups
  = ('(c3, ev3) ← trackUnacked c2;
     '(err, c4, _, ev4) ← writeAcksIfNecessary GT AppendTo isEOF now fuel c3
                            wakeups;
     match err with
     | Some e => Done (Some (Errorf "failed to write acks when necessary" e),
                       c4, ev1 ++ ev3 ++ ev4)
     | None =>
         if Empty header then Done (None, c4, ev1 ++ ev3 ++ ev4)
         else if ph c4
              then Done (None, c4,
                         ev1 ++ ev3 ++ ev4 ++ [Handle (Sequence header) payload])
              else Done (None, c4, ev1 ++ ev3 ++ ev4)
     end).
Proof.
  intros Hack Htrack. unfold Read. rewrite Hack, Htrack.
  rewrite andb_false_r. reflexivity.
Qed.

(** *** Stale sequences *)

Lemma trackRead_stale (s : Z) (c : Conn) :
  0 < len (rq c) < 65536 -> is_u16 s ->
  rq c !! Z.to_nat (s mod len (rq c)) <> Some s ->
  GT (u16 (s + 1)) (ri c) = false ->
  trackRead GT s c
  = (true, set_rq (<[Z.to_nat (s mod len (rq c)) := s]> (rq c)) c).
Proof.
  intros Hrq Hs Hnew Hgt. unfold trackRead. cbv zeta.
  rewrite holds_tag, bool_decide_eq_false_2 by assumption.
  rewrite Hgt, u16_id, uint32_id by (unfold is_u16 in *; lia).
  reflexivity.
Qed.


End ReceivePath.

(** ** Standalone acks *)

Lemma emptySlice_none (q : list Z) (lo : Z) : emptySlice q lo (lo + 0) = q.
Proof.
  unfold emptySlice. replace (lo + 0 - lo) with 0 by lia.
  rewrite Z.add_0_r. simpl. apply take_drop.
Qed.

(** Nothing lies between [wi = s + 1] and [s]: [clearWrites] clears no slot. *)
Lemma clearRing_none (q : list Z) (s : Z) :
  0 < len q < 65536 -> clearRing q (u16 (s + 1)) s = q.
Proof.
  intros Hq. unfold clearRing. cbv zeta.
  assert (Hcount : u16 (s - u16 (s + 1) + 1) = 0).
  { pose proof (Z.div_mod (s + 1) 65536 ltac:(lia)) as Hdm.
    replace (s - u16 (s + 1) + 1) with ((s + 1) / 65536 * 65536)
      by (unfold u16; lia).
    unfold u16. apply Z.mod_mul. lia. }
  rewrite Hcount, (u16_id (len q)) by (unfold is_u16; lia).
  destruct (Z.leb_spec (len q) 0); [lia|].
  pose proof (u16_range (len q - u16 (s + 1) mod len q)) as Hr.
  unfold is_u16 in Hr.
  destruct (Z.leb_spec 0 (u16 (len q - u16 (s + 1) mod len q))); [|lia].
  apply emptySlice_none.
Qed.

Lemma prepareAckBits_loop_rq (c c' : Conn) (ack : Z) (fuel : nat) :
  rq c' = rq c ->
  forall i m acc,
    prepareAckBits_loop fuel c' ack i m acc = prepareAckBits_loop fuel c ack i m acc.
Proof.
  intros Hrq. induction fuel as [|fuel IH]; intros i m acc; [reflexivity|].
  cbn [prepareAckBits_loop]. rewrite Hrq, !IH. reflexivity.
Qed.

Lemma prepareAckBits_rq (c c' : Conn) (ack : Z) :
  rq c' = rq c -> prepareAckBits c' ack = prepareAckBits c ack.
Proof. intros H. unfold prepareAckBits. now apply prepareAckBits_loop_rq. Qed.


(** The first loop of [createAckIfNecessary] finds the 32 sequences from
    [lui] on in their slots. *)
Lemma window_recorded (c : Conn) :
  0 < len (rq c) < 65536 ->
  received_loop (Z.to_nat ACKBitsetSize) c (lui c) 0 = true
  <-> forall k, 0 <= k < 32 ->
        rq c !! Z.to_nat (u16 (lui c + k) mod len (rq c))
        = Some (u16 (lui c + k)).
Proof.
  intros Hrq.
  rewrite (received_loop_true c (lui c) (Z.to_nat ACKBitsetSize) 0)
    by (try reflexivity; lia).
  split; intros H k Hk; specialize (H k Hk);
    rewrite holds_tag in * by (try apply u16_range; exact Hrq).
  - now apply bool_decide_eq_true in H.
  - now apply bool_decide_eq_true.
Qed.

Section StandaloneAcks.

Variable GT : Z -> Z -> bool.
Variable AppendTo : PacketHeader -> bytes -> bytes.
Variable isEOF : error -> bool.
Variable now : Z.

(** [trackWrite] of the sequence that was just taken from [wi]. *)
Lemma trackWrite_next (idx : Z) (b : Buffer) (c : Conn) :
  0 < len (wq c) < 65536 -> is_u16 idx -> wi c = u16 (idx + 1) ->
  trackWrite GT now idx b c
  = (set_wqe (<[Z.to_nat (idx mod len (wq c))
                := {| buf := Some b; acked := false; written := now;
                      resent := 0 |}]> (wqe c))
       (set_wq (<[Z.to_nat (idx mod len (wq c)) := idx]> (wq c)) c),
     match buf (entry c (idx mod len (wq c))) with
     | Some old => [PoolPut old]
     | None => []
     end).
Proof.
  intros Hwq Hidx Hwi. unfold trackWrite. cbv zeta.
  assert (Hc1 : (if GT (u16 (idx + 1)) (wi c)
                 then set_wi (u16 (idx + 1)) (clearWrites c (wi c) idx)
                 else c) = c).
  { destruct (GT _ _); [|reflexivity].
    unfold clearWrites. rewrite Hwi, clearRing_none by exact Hwq.
    rewrite <- Hwi. now destruct c. }
  rewrite Hc1, (u16_id (len (wq c))), uint32_id
    by (unfold is_u16 in *; lia).
  reflexivity.
Qed.



End StandaloneAcks.

(** ** Clearing the rings ([clearWrites], [clearReads]) *)

Lemma emptySlice_length (q : list Z) (lo hi : Z) :
  0 <= lo <= hi -> hi <= len q -> length (emptySlice q lo hi) = length q.
Proof.
  unfold len. intros Hlo Hhi. unfold emptySlice, emptyBufferIndices.
  rewrite !length_app, length_replicate, !length_take, !length_drop. lia.
Qed.

Lemma emptySlice_lookup (q : list Z) (lo hi : Z) (j : nat) :
  0 <= lo <= hi -> hi <= len q -> (j < length q)%nat ->
  emptySlice q lo hi !! j
  = if decide (lo <= Z.of_nat j < hi) then Some emptySlot else q !! j.
Proof.
  unfold len. intros Hlo Hhi Hj. unfold emptySlice, emptyBufferIndices.
  destruct (decide (Z.of_nat j < lo)) as [Hlt|Hge].
  - rewrite lookup_app_l by (rewrite length_take; lia).
    rewrite lookup_take_lt by lia.
    destruct (decide _); [lia|reflexivity].
  - rewrite lookup_app_r by (rewrite length_take; lia).
    rewrite length_take.
    destruct (decide (Z.of_nat j < hi)) as [Hlt|Hge'].
    + rewrite lookup_app_l
        by (rewrite length_replicate, length_take, length_drop; lia).
      rewrite (lookup_replicate_2 _ emptySlot)
        by (rewrite length_take, length_drop; lia).
      destruct (decide _); [reflexivity|lia].
    + rewrite lookup_app_r
        by (rewrite length_replicate, length_take, length_drop; lia).
      rewrite length_replicate, length_take, length_drop, lookup_drop.
      destruct (decide _); [lia|]. f_equal. lia.
Qed.

Lemma clearRing_length (q : list Z) (start end_ : Z) :
  0 < len q < 65536 -> length (clearRing q start end_) = length q.
Proof.
  intros Hq. unfold clearRing. cbv zeta.
  rewrite (u16_id (len q)) by (unfold is_u16; lia).
  pose proof (Z.mod_pos_bound start (len q) ltac:(lia)) as Hlo.
  rewrite (u16_id (len q - _)) by (unfold is_u16; lia).
  pose proof (u16_range (end_ - start + 1)) as Hc. unfold is_u16 in Hc.
  destruct (Z.leb_spec (len q) (u16 (end_ - start + 1))).
  - unfold emptyBufferIndices. apply length_replicate.
  - destruct (Z.leb_spec (u16 (end_ - start + 1)) (len q - start mod len q)).
    + apply emptySlice_length; lia.
    + rewrite emptySlice_length; [apply emptySlice_length; lia|lia|].
      unfold len. rewrite emptySlice_length by (unfold len in *; lia).
      unfold len in *. lia.
Qed.

(** Slot [j] is among the [count] slots from [lo] on, cyclically. *)
Lemma cyclic_range (size lo count j : Z) :
  0 < size -> 0 <= lo < size -> 0 <= j < size -> 0 <= count ->
  (exists t, 0 <= t < count /\ j = (lo + t) mod size)
  <-> size <= count \/ (j - lo) mod size < count.
Proof.
  intros Hsize Hlo Hj Hcount.
  pose proof (Z.mod_pos_bound (j - lo) size Hsize) as Hm.
  assert (Hback : j = (lo + (j - lo) mod size) mod size).
  { rewrite Zplus_mod_idemp_r. replace (lo + (j - lo)) with j by lia.
    symmetry. apply Z.mod_small. lia. }
  split.
  - intros (t & Ht & ->).
    destruct (Z_lt_le_dec count size) as [Hlt|]; [right|now left].
    replace ((lo + t) mod size - lo) with (t + ((lo + t) mod size - (lo + t)))
      by lia.
    rewrite <- Zplus_mod_idemp_r, Zminus_mod_idemp_l, Z.sub_diag, Z.mod_0_l,
      Z.add_0_r, Z.mod_small by lia. lia.
  - intros [Hall|Hin]; exists ((j - lo) mod size); split; try lia; exact Hback.
Qed.

Lemma clearRing_lookup (q : list Z) (start end_ : Z) (j : nat) :
  0 < len q < 65536 -> (j < length q)%nat ->
  clearRing q start end_ !! j
  = if decide (len q <= u16 (end_ - start + 1)
               \/ (Z.of_nat j - start mod len q) mod len q
                  < u16 (end_ - start + 1))
    then Some emptySlot else q !! j.
Proof.
  intros Hq Hj. unfold clearRing. cbv zeta.
  rewrite (u16_id (len q)) by (unfold is_u16; lia).
  pose proof (Z.mod_pos_bound start (len q) ltac:(lia)) as Hlo.
  rewrite (u16_id (len q - _)) by (unfold is_u16; lia).
  pose proof (u16_range (end_ - start + 1)) as Hc. unfold is_u16 in Hc.
  set (count := u16 (end_ - start + 1)) in *.
  set (lo := start mod len q) in *.
  assert (HjZ : 0 <= Z.of_nat j < len q) by (unfold len; lia).
  destruct (Z.leb_spec (len q) count) as [Hall|Hsome].
  { destruct (decide _) as [|Hn]; [|exfalso; apply Hn; now left].
    unfold emptyBufferIndices. now apply lookup_replicate_2. }
  assert (Hshift : (Z.of_nat j - lo) mod len q
                   = if decide (lo <= Z.of_nat j) then Z.of_nat j - lo
                     else Z.of_nat j - lo + len q).
  { destruct (decide _).
    - apply Z.mod_small. lia.
    - rewrite <- (Z.mod_add _ 1) by lia. rewrite Z.mul_1_l.
      apply Z.mod_small. lia. }
  assert (Hlen1 : length (emptySlice q lo (len q)) = length q)
    by (apply emptySlice_length; lia).
  rewrite Hshift. clear Hshift.
  destruct (Z.leb_spec count (len q - lo)) as [Hfit|Hwrap].
  - rewrite emptySlice_lookup by lia.
    destruct (decide (lo <= Z.of_nat j)); repeat destruct (decide _);
      try reflexivity; lia.
  - rewrite emptySlice_lookup
      by (unfold len; rewrite ?Hlen1; unfold len in *; lia).
    rewrite emptySlice_lookup by lia.
    destruct (decide (lo <= Z.of_nat j)); repeat destruct (decide _);
      try reflexivity; lia.
Qed.

(** X1.  [clearWrites] and [clearReads] keep the size of the ring, mark empty
    the [count = end - start + 1] slots from [start % size] on, cyclically
    (all of them when [count >= size]), and leave every other slot as it
    was. *)
Theorem clearRing_slots (q : list Z) (start end_ j : Z) :
  0 < len q < 65536 ->
  0 <= j < len q ->
  length (clearRing q start end_) = length q
  /\ ((exists t, 0 <= t < u16 (end_ - start + 1)
                 /\ j = (start mod len q + t) mod len q) ->
      clearRing q start end_ !! Z.to_nat j = Some emptySlot)
  /\ ((forall t, 0 <= t < u16 (end_ - start + 1) ->
                 j <> (start mod len q + t) mod len q) ->
      clearRing q start end_ !! Z.to_nat j = q !! Z.to_nat j).
Proof.
  intros Hq Hj. split; [now apply clearRing_length|].
  pose proof (Z.mod_pos_bound start (len q) ltac:(lia)) as Hlo.
  pose proof (u16_range (end_ - start + 1)) as Hc. unfold is_u16 in Hc.
  pose proof (cyclic_range (len q) (start mod len q) (u16 (end_ - start + 1)) j
                ltac:(lia) Hlo Hj ltac:(lia)) as Hcyc.
  rewrite clearRing_lookup by (unfold len in *; lia).
  rewrite Z2Nat.id by lia.
  split; intros H; destruct (decide _) as [Hin|Hout]; try reflexivity.
  - exfalso. apply Hout. apply Hcyc. exact H.
  - exfalso. apply Hcyc in Hin as (t & Ht & Heq). exact (H t Ht Heq).
Qed.

(** ** Receive tracking ([trackRead]) *)

Lemma u16_lt_emptySlot (x : Z) : u16 x <> emptySlot.
Proof. pose proof (u16_range x) as H. unfold is_u16, emptySlot in *. lia. Qed.

Section TrackRead.

Variable GT : Z -> Z -> bool.

(** X2.  After [trackRead idx], whatever it answered, sequence [idx] is
    recorded in its slot, the ring has kept its size, and the same sequence
    presented again is a duplicate: [trackRead] answers [false] and changes
    nothing.  When the first answer is [false] nothing was changed either. *)
Theorem trackRead_then_duplicate (idx : Z) (c : Conn) :
  0 < len (rq c) < 65536 ->
  is_u16 idx ->
  let '(fresh, c') := trackRead GT idx c in
  rq c' !! Z.to_nat (idx mod len (rq c)) = Some idx
  /\ length (rq c') = length (rq c)
  /\ trackRead GT idx c' = (false, c')
  /\ (fresh = false -> c' = c).
Proof.
  intros Hrq Hidx. unfold trackRead at 1. cbv zeta.
  rewrite holds_tag by assumption.
  destruct (bool_decide_reflect
              (rq c !! Z.to_nat (idx mod len (rq c)) = Some idx)) as [Hdup|Hnew].
  - repeat split; try assumption.
    unfold trackRead. cbv zeta.
    now rewrite holds_tag, bool_decide_eq_true_2 by assumption.
  - set (c1 := if GT (u16 (idx + 1)) (ri c)
               then set_ri (u16 (idx + 1)) (clearReads c (ri c) idx) else c).
    assert (Hlen1 : length (rq c1) = length (rq c)).
    { subst c1. destruct (GT _ _); [|reflexivity]. simpl.
      now apply clearRing_length. }
    assert (Hu : u16 (len (rq c)) = len (rq c))
      by (apply u16_id; unfold is_u16; lia).
    assert (Hlen1' : len (rq c1) = len (rq c)) by (unfold len; now rewrite Hlen1).
    rewrite Hu, uint32_id by (unfold is_u16 in *; lia).
    pose proof (Z.mod_pos_bound idx (len (rq c)) ltac:(lia)) as Hi.
    assert (Hrec : <[Z.to_nat (idx mod len (rq c)) := idx]> (rq c1)
                   !! Z.to_nat (idx mod len (rq c)) = Some idx).
    { apply list_lookup_insert_eq. rewrite Hlen1. unfold len in *. lia. }
    cbn [rq set_rq]. split; [exact Hrec|].
    split; [now rewrite length_insert|]. split; [|discriminate].
    unfold trackRead. cbv zeta. cbn [rq set_rq].
    assert (Hlen2 : len (<[Z.to_nat (idx mod len (rq c)) := idx]> (rq c1))
                    = len (rq c))
      by (unfold len; now rewrite length_insert, Hlen1).
    rewrite Hlen2, Hu, uint32_id by (unfold is_u16 in *; lia).
    unfold holds. rewrite Hrec, Z.eqb_refl. reflexivity.
Qed.

(** X3.  The packet that is expected next ([idx = ri], and [GT(ri + 1, ri)]
    as for any serial-number order) moves [ri] by one and writes its own slot;
    every other receive slot is left as it was. *)
Theorem trackRead_in_order (c : Conn) :
  0 < len (rq c) < 65536 ->
  is_u16 (ri c) ->
  GT (u16 (ri c + 1)) (ri c) = true ->
  rq c !! Z.to_nat (ri c mod len (rq c)) <> Some (ri c) ->
  trackRead GT (ri c) c
  = (true, set_rq (<[Z.to_nat (ri c mod len (rq c)) := ri c]> (rq c))
             (set_ri (u16 (ri c + 1)) c)).
Proof.
  intros Hrq Hri Hgt Hnew. unfold trackRead. cbv zeta.
  rewrite holds_tag, bool_decide_eq_false_2 by assumption.
  rewrite Hgt. cbn [rq set_ri clearReads set_rq].
  rewrite (u16_id (len (rq c))), uint32_id by (unfold is_u16 in *; lia).
  pose proof (Z.mod_pos_bound (ri c) (len (rq c)) ltac:(lia)) as Hi.
  assert (Heq : <[Z.to_nat (ri c mod len (rq c)) := ri c]>
                  (clearRing (rq c) (ri c) (ri c))
                = <[Z.to_nat (ri c mod len (rq c)) := ri c]> (rq c)).
  { apply list_eq. intros j. rewrite !list_lookup_insert, clearRing_length
      by exact Hrq.
    destruct (decide _) as [|Hne]; [reflexivity|].
    destruct (decide (j < length (rq c))%nat) as [Hj|Hj].
    - rewrite clearRing_lookup by assumption.
      replace (ri c - ri c + 1) with 1 by lia.
      change (u16 1) with 1.
      destruct (decide _) as [[Hall|Hin]|]; [| |reflexivity]; exfalso;
        apply Hne; clear Hne Hnew.
      + set (i := ri c mod len (rq c)) in *. clearbody i.
        unfold len in *. split; lia.
      + pose proof (Z.mod_pos_bound (Z.of_nat j - ri c mod len (rq c))
                      (len (rq c)) ltac:(lia)) as Hm.
        assert (Hz : (Z.of_nat j - ri c mod len (rq c)) mod len (rq c) = 0).
        { set (m := (Z.of_nat j - ri c mod len (rq c)) mod len (rq c)) in *.
          clearbody m. lia. }
        apply Z.mod_divide in Hz as [k Hk]; [|lia]. clear Hin Hm.
        set (i := ri c mod len (rq c)) in *. clearbody i.
        unfold len in *. assert (k = 0) by nia. subst k. split; lia.
    - rewrite !lookup_ge_None_2; [reflexivity|lia|].
      rewrite clearRing_length by exact Hrq. lia. }
  rewrite Heq. reflexivity.
Qed.

(** X4.  A packet ahead of [ri] leaves no trace of the sequences it skips:
    on a ring whose size divides 2^16 (as conn.go asks of the buffer sizes),
    after [trackRead idx] with [GT(idx + 1, ri)], [ri] is [idx + 1] and no
    sequence [ri + t] before [idx] is recorded in its slot, whatever the slot
    held before. *)
Theorem trackRead_gap (idx t : Z) (c : Conn) :
  0 < len (rq c) < 65536 ->
  65536 mod len (rq c) = 0 ->
  is_u16 idx ->
  is_u16 (ri c) ->
  rq c !! Z.to_nat (idx mod len (rq c)) <> Some idx ->
  GT (u16 (idx + 1)) (ri c) = true ->
  u16 (idx + 1) <> ri c ->
  0 <= t < u16 (idx - ri c) ->
  let c' := snd (trackRead GT idx c) in
  ri c' = u16 (idx + 1)
  /\ rq c' !! Z.to_nat (idx mod len (rq c)) = Some idx
  /\ rq c' !! Z.to_nat (u16 (ri c + t) mod len (rq c)) <> Some (u16 (ri c + t)).
Proof.
  intros Hrq Hdiv Hidx Hri Hnew Hgt Hne Ht.
  unfold trackRead. cbv zeta.
  rewrite holds_tag, bool_decide_eq_false_2 by assumption.
  rewrite Hgt. cbn [snd rq ri set_ri clearReads set_rq].
  rewrite (u16_id (len (rq c))), uint32_id by (unfold is_u16 in *; lia).
  set (W := len (rq c)) in *.
  pose proof (Z.mod_pos_bound idx W ltac:(lia)) as Hi.
  pose proof (Z.mod_pos_bound (u16 (ri c + t)) W ltac:(lia)) as Hj.
  assert (Hlen : length (clearRing (rq c) (ri c) idx) = length (rq c))
    by now apply clearRing_length.
  assert (HW : Z.of_nat (length (rq c)) = W) by reflexivity.
  split; [reflexivity|]. split.
  { apply list_lookup_insert_eq. rewrite Hlen. lia. }
  (* the distance from [ri] to [idx], and to the skipped sequence *)
  pose proof (u16_range (idx - ri c)) as Hd. unfold is_u16 in Hd, Hidx, Hri.
  set (d := u16 (idx - ri c)) in *.
  assert (Hidx' : idx = u16 (ri c + d)).
  { unfold d. rewrite u16_reach; [reflexivity|exact Hidx]. }
  assert (Hd' : d <> 65535).
  { intros Hmax. apply Hne. rewrite Hidx', Hmax, u16_add_l.
    replace (ri c + 65535 + 1) with (ri c + 1 * 65536) by lia.
    unfold u16. rewrite Z.mod_add by lia. apply Z.mod_small. lia. }
  assert (Hcount : u16 (idx - ri c + 1) = d + 1).
  { replace (idx - ri c + 1) with (1 + (idx - ri c)) by lia.
    unfold u16 at 1. rewrite <- Zplus_mod_idemp_r. fold (u16 (idx - ri c)).
    fold d. replace (1 + d) with (d + 1) by lia. apply Z.mod_small. lia. }
  assert (Hs : u16 (ri c + t) <> idx).
  { rewrite Hidx'. unfold u16. intros Heq.
    assert (Hz : (ri c + d - (ri c + t)) mod 65536 = 0).
    { rewrite Zminus_mod, Heq, Z.sub_diag. reflexivity. }
    replace (ri c + d - (ri c + t)) with (d - t) in Hz by lia.
    rewrite Z.mod_small in Hz by lia. lia. }
  rewrite list_lookup_insert, Hlen.
  destruct (decide _) as [_|Hother]; [congruence|].
  rewrite clearRing_lookup by (try assumption; lia).
  rewrite Hcount, Z2Nat.id by lia.
  destruct (decide _) as [_|Hout].
  { intros H. injection H as H. symmetry in H. now apply u16_lt_emptySlot in H. }
  exfalso. apply Hout.
  destruct (Z_lt_le_dec (d + 1) W) as [Hsmall|]; [right|now left].
  fold W.
  assert (Hslot : u16 (ri c + t) mod W = (ri c + t) mod W).
  { unfold u16. apply Z.mod_mod_divide. apply Z.mod_divide; lia. }
  rewrite Hslot, <- Zminus_mod.
  replace (ri c + t - ri c) with t by lia.
  rewrite Z.mod_small by lia. lia.
Qed.

End TrackRead.

(** ** How far the cursors move ([trackUnacked], [trackAcked]) *)

Lemma trackUnacked_loop_Some (c : Conn) (fuel : nat) :
  forall o o', is_u16 o ->
    trackUnacked_loop fuel c o = Some o' ->
    exists n, 0 <= n < Z.of_nat fuel
              /\ o' = u16 (o + n)
              /\ (forall k, 0 <= k < n -> ackedSeq c (u16 (o + k)) = true)
              /\ ackedSeq c o' = false.
Proof.
  induction fuel as [|fuel IH]; intros o o' Ho Hloop; [discriminate|].
  cbn [trackUnacked_loop] in Hloop. cbv zeta in Hloop.
  destruct (negb _ || negb _) eqn:Hstop.
  - injection Hloop as <-. exists 0. rewrite Z.add_0_r, u16_id by exact Ho.
    repeat split; try lia.
    unfold ackedSeq. apply orb_true_iff in Hstop as [H|H];
      apply negb_true_iff in H; rewrite H; [reflexivity|apply andb_false_r].
  - apply orb_false_elim in Hstop as [Hh Ha].
    apply negb_false_iff in Hh, Ha.
    destruct (IH _ _ (u16_range _) Hloop) as (n & Hn & -> & Hrun & Hend).
    exists (n + 1). rewrite u16_add_l in *.
    replace (o + 1 + n) with (o + (n + 1)) in * by lia.
    repeat split; try lia; [|exact Hend].
    intros k Hk. destruct (Z.eq_dec k 0) as [->|Hk0].
    + rewrite Z.add_0_r, u16_id by exact Ho. unfold ackedSeq.
      now rewrite Hh, Ha.
    + specialize (Hrun (k - 1) ltac:(lia)). rewrite u16_add_l in Hrun.
      now replace (o + 1 + (k - 1)) with (o + k) in Hrun by lia.
Qed.

(** [trackUnacked] returns, having moved [oui] by less than the sequence
    space. *)
Lemma trackUnacked_moves (c : Conn) :
  wf c ->
  exists n, 0 <= n < 65536
    /\ trackUnacked c = Done (set_oui (u16 (oui c + n)) c, [Broadcast]).
Proof.
  intros Hwf. pose proof (trackUnacked_total c Hwf) as [o Hdone].
  unfold trackUnacked in *.
  destruct (trackUnacked_loop seqSpace c (oui c)) as [o'|] eqn:Hloop;
    [|discriminate].
  destruct (trackUnacked_loop_Some c seqSpace _ _ (wf_oui c Hwf) Hloop)
    as (n & Hn & -> & _).
  rewrite seqSpace_Z in Hn. exists n. split; [lia|reflexivity].
Qed.

(** X5.  [trackUnacked] moves [oui] over the sequences from [oui] on that the
    send window holds acked, and stops at the first one that is not: no
    sequence that is not acked is passed.  It always returns and broadcasts on
    the gate. *)
Theorem trackUnacked_run (c : Conn) :
  wf c ->
  exists n, 0 <= n < 65536
    /\ trackUnacked c = Done (set_oui (u16 (oui c + n)) c, [Broadcast])
    /\ (forall k, 0 <= k < n -> ackedSeq c (u16 (oui c + k)) = true)
    /\ ackedSeq c (u16 (oui c + n)) = false.
Proof.
  intros Hwf. pose proof (trackUnacked_total c Hwf) as [o Hdone].
  unfold trackUnacked in *.
  destruct (trackUnacked_loop seqSpace c (oui c)) as [o'|] eqn:Hloop;
    [|discriminate].
  destruct (trackUnacked_loop_Some c seqSpace _ _ (wf_oui c Hwf) Hloop)
    as (n & Hn & -> & Hrun & Hend).
  rewrite seqSpace_Z in Hn. exists n. repeat split; try lia; assumption.
Qed.

Lemma trackAcked_loop_Some (c : Conn) (ack : Z) (fuel : nat) :
  forall l l', is_u16 l ->
    trackAcked_loop fuel c ack l = Some l' ->
    exists n, 0 <= n < Z.of_nat fuel
              /\ l' = u16 (l + n)
              /\ (forall k, 0 <= k < n ->
                    u16 (l + k) <= ack /\ recordedSeq c (u16 (l + k)) = true)
              /\ (ack < l' \/ recordedSeq c l' = false).
Proof.
  induction fuel as [|fuel IH]; intros l l' Hl Hloop; [discriminate|].
  cbn [trackAcked_loop] in Hloop.
  destruct (Z.leb_spec l ack) as [Hle|Hgt].
  - destruct (holds (rq c) (l mod u16 (len (rq c))) (uint32 l)) eqn:Hh;
      cbn [negb] in Hloop.
    + destruct (IH _ _ (u16_range _) Hloop) as (n & Hn & -> & Hrun & Hend).
      exists (n + 1). rewrite u16_add_l in *.
      replace (l + 1 + n) with (l + (n + 1)) in * by lia.
      repeat split; try lia; try exact Hend.
      all: destruct (Z.eq_dec k 0) as [->|Hk0];
        [rewrite Z.add_0_r, u16_id by exact Hl; try exact Hle; exact Hh|].
      all: specialize (Hrun (k - 1) ltac:(lia)); rewrite u16_add_l in Hrun;
        replace (l + 1 + (k - 1)) with (l + k) in Hrun by lia; apply Hrun.
    + injection Hloop as <-. exists 0.
      rewrite Z.add_0_r, u16_id by exact Hl.
      repeat split; try lia. now right.
  - injection Hloop as <-. exists 0. rewrite Z.add_0_r, u16_id by exact Hl.
    repeat split; lia.
Qed.

(** [trackAcked] returns, having moved [lui] by less than the sequence
    space. *)
Lemma trackAcked_moves now (ack : Z) (c : Conn) :
  wf c ->
  exists n, 0 <= n < 65536
    /\ trackAcked now ack c = Done (set_ls now (set_lui (u16 (lui c + n)) c)).
Proof.
  intros Hwf. pose proof (trackAcked_total now ack c Hwf) as [o Hdone].
  unfold trackAcked in *.
  destruct (trackAcked_loop seqSpace c ack (lui c)) as [l'|] eqn:Hloop;
    [|discriminate].
  destruct (trackAcked_loop_Some c ack seqSpace _ _ (wf_lui c Hwf) Hloop)
    as (n & Hn & -> & _).
  rewrite seqSpace_Z in Hn. exists n. split; [lia|reflexivity].
Qed.

(** X6.  [trackAcked ack] moves [lui] over sequences that are recorded in the
    receive window and at most [ack] as integers, and stops at the first
    sequence that is above [ack] or not recorded: [lui] never passes a
    sequence that was not received.  It sets the time of the last send and
    touches nothing else. *)
Theorem trackAcked_run now (ack : Z) (c : Conn) :
  wf c ->
  exists n, 0 <= n < 65536
    /\ trackAcked now ack c = Done (set_ls now (set_lui (u16 (lui c + n)) c))
    /\ (forall k, 0 <= k < n ->
          u16 (lui c + k) <= ack /\ recordedSeq c (u16 (lui c + k)) = true)
    /\ (ack < u16 (lui c + n) \/ recordedSeq c (u16 (lui c + n)) = false).
Proof.
  intros Hwf. pose proof (trackAcked_total now ack c Hwf) as [o Hdone].
  unfold trackAcked in *.
  destruct (trackAcked_loop seqSpace c ack (lui c)) as [l'|] eqn:Hloop;
    [|discriminate].
  destruct (trackAcked_loop_Some c ack seqSpace _ _ (wf_lui c Hwf) Hloop)
    as (n & Hn & -> & Hrun & Hend).
  rewrite seqSpace_Z in Hn. exists n. repeat split; try lia; try assumption.
  all: now apply Hrun.
Qed.

(** ** What an ack achieves ([readAckBits]) *)

Lemma ackTargets_bit (ack : Z) (fuel : nat) :
  forall idx ackBits t,
    0 <= idx -> 0 <= t < Z.of_nat fuel -> idx + t < 32 ->
    Z.testbit ackBits t = true ->
    In (u16 (ack - (idx + t))) (ackTargets fuel ack idx ackBits).
Proof.
  induction fuel as [|fuel IH]; intros idx ackBits t Hidx Ht Hlt Hbit; [lia|].
  cbn [ackTargets]. unfold ACKBitsetSize.
  destruct (Z.ltb_spec idx 32); [|lia]. apply in_or_app.
  destruct (Z.eq_dec t 0) as [->|Hne].
  - left. rewrite land_1_testbit, Hbit, Z.add_0_r. now left.
  - right. rewrite (u16_id (idx + 1)) by (unfold is_u16; lia).
    replace (idx + t) with (idx + 1 + (t - 1)) by lia.
    apply IH; try lia. rewrite Z.shiftr_spec by lia.
    now replace (t - 1 + 1) with t by lia.
Qed.

Lemma ackAll_puts (l : list Z) :
  forall c s e0 b,
    In s l ->
    holds (wq c) (s mod u16 (len (wq c))) (uint32 s) = true ->
    wqe c !! Z.to_nat (s mod u16 (len (wq c))) = Some e0 ->
    acked e0 = false ->
    buf e0 = Some b ->
    In (PoolPut b) (snd (ackAll l c)).
Proof.
  induction l as [|s' l IH]; intros c s e0 b Hin Hh He Ha Hb; [destruct Hin|].
  assert (Hentry : entry c (s mod u16 (len (wq c))) = e0)
    by (unfold entry; now rewrite He).
  simpl. destruct (skipped s' c) eqn:Hskip.
  - rewrite ackSlot_skipped by exact Hskip.
    assert (Hin' : In s l).
    { destruct Hin as [->|Hin]; [|exact Hin]. exfalso.
      unfold skipped in Hskip. cbv zeta in Hskip.
      rewrite Hh, Hentry, Ha in Hskip. discriminate. }
    specialize (IH c s e0 b Hin' Hh He Ha Hb).
    destruct (ackAll l c) as [c2 puts]. exact IH.
  - unfold skipped in Hskip. cbv zeta in Hskip.
    unfold ackSlot. cbv zeta. rewrite Hskip.
    destruct (decide (Z.to_nat (s' mod u16 (len (wq c)))
                      = Z.to_nat (s mod u16 (len (wq c))))) as [Heq|Hne].
    + assert (Hentry' : entry c (s' mod u16 (len (wq c))) = e0)
        by (unfold entry; now rewrite Heq, He).
      rewrite Hentry', Hb.
      destruct (ackAll l _) as [c2 puts]. simpl. now left.
    + assert (Hin' : In s l).
      { destruct Hin as [->|Hin]; [congruence|exact Hin]. }
      match goal with |- context [ackAll l ?c1] =>
        specialize (IH c1 s e0 b Hin' Hh) end.
      cbn [wq wqe set_wqe] in IH. rewrite list_lookup_insert_ne in IH by exact Hne.
      specialize (IH He Ha Hb).
      destruct (ackAll l _) as [c2 puts]. simpl in *.
      apply in_or_app. now right.
Qed.

(** X7.  After [readAckBits ack ackBits], every sequence [ack - k] whose bit
    [k] is set and whose send slot still holds its tag is acked; if it was
    not acked before, its buffer has left the slot and has been returned to
    the pool. *)
Theorem readAckBits_acks (c : Conn) (ack ackBits k : Z) :
  0 < len (wq c) < 65536 ->
  length (wqe c) = length (wq c) ->
  0 <= k < 32 ->
  Z.testbit ackBits k = true ->
  wq c !! Z.to_nat (u16 (ack - k) mod len (wq c)) = Some (u16 (ack - k)) ->
  let '(c1, evs) := readAckBits ack ackBits c in
  exists e,
    wqe c1 !! Z.to_nat (u16 (ack - k) mod len (wq c)) = Some e
    /\ acked e = true
    /\ forall e0 b,
         wqe c !! Z.to_nat (u16 (ack - k) mod len (wq c)) = Some e0 ->
         acked e0 = false -> buf e0 = Some b ->
         buf e = None /\ In (PoolPut b) evs.
Proof.
  intros Hwq Hlen Hk Hbit Htag. unfold readAckBits.
  rewrite readAckBits_loop_ackAll.
  set (l := ackTargets (Z.to_nat ACKBitsetSize) ack 0 ackBits).
  set (s := u16 (ack - k)) in *.
  assert (Hu : u16 (len (wq c)) = len (wq c))
    by (apply u16_id; unfold is_u16; lia).
  assert (Hin : In s l).
  { pose proof (ackTargets_bit ack (Z.to_nat ACKBitsetSize) 0 ackBits k
                  ltac:(lia) ltac:(unfold ACKBitsetSize; lia) ltac:(lia) Hbit)
      as H. now rewrite Z.add_0_l in H. }
  assert (Hh : holds (wq c) (s mod u16 (len (wq c))) (uint32 s) = true).
  { rewrite Hu. unfold s. rewrite uint32_u16. now apply holds_lookup. }
  clearbody l.
  pose proof (ackAll_settles l c Hlen s Hin) as Hset.
  pose proof (ackAll_frame l c) as Hframe.
  pose proof (fun e0 b => ackAll_puts l c s e0 b Hin Hh) as Hputs.
  pose proof (ackAll_entry l c (Z.to_nat (s mod len (wq c)))) as Hentry.
  destruct (ackAll l c) as [c1 evs]. cbn [fst snd] in *.
  pose proof (same_but_wqe_wq _ _ Hframe) as Hwq1. destruct Hframe as [_ Hlen1].
  unfold skipped in Hset. cbv zeta in Hset. rewrite Hwq1, Hh in Hset.
  simpl in Hset. unfold entry in Hset. rewrite Hu in *.
  destruct (wqe c1 !! Z.to_nat (s mod len (wq c))) as [e|] eqn:He1.
  2:{ apply lookup_ge_None_1 in He1. apply lookup_lt_Some in Htag. lia. }
  simpl in Hset.
  exists e. split; [reflexivity|]. split; [exact Hset|].
  intros e0 b He0 Ha Hb. split; [|now apply (Hputs e0 b)].
  destruct (Hentry e0 He0) as [Hsame|(_ & Hnew & _)].
  - injection Hsame as ->. congruence.
  - injection Hnew as ->. reflexivity.
Qed.

(** ** A reliable write that goes through *)

Lemma set_wi_wf (v : Z) (c : Conn) : wf c -> wf (set_wi (u16 v) c).
Proof. intros []. split; try assumption. apply u16_range. Qed.

Section WholePaths.

Variable GT : Z -> Z -> bool.
Variable AppendTo : PacketHeader -> bytes -> bytes.
Variable isEOF : error -> bool.
Variable now : Z.

(** A reliable write that finds the gate open. *)
Lemma writePacket_reliable_open (payload : bytes) (c : Conn)
  (wakeups : list Conn) :
  mustWait GT c = false ->
  WriteReliablePacket GT AppendTo isEOF now payload c wakeups
  = (if negb (negb (die c))
     then Done (Some EOF, set_wi (u16 (wi c + 1)) c, [])
     else
       c2 ← trackAcked now (u16 (ri (set_wi (u16 (wi c + 1)) c) - 1))
              (set_wi (u16 (wi c + 1)) c);
       Done (write GT AppendTo isEOF now
               {| Sequence := wi c;
                  ACK := u16 (ri (set_wi (u16 (wi c + 1)) c) - 1);
                  ACKBits :=
                    prepareAckBits (set_wi (u16 (wi c + 1)) c)
                      (u16 (ri (set_wi (u16 (wi c + 1)) c) - 1));
                  Unordered := negb true; Empty := false |} payload c2)).
Proof.
  intros Hopen. unfold WriteReliablePacket, writePacket, waitForNextWriteDetails.
  rewrite wait_open by exact Hopen.
  cbv beta iota zeta delta [mbind outcome_bind nextWriteIndex nextAckDetails].
  reflexivity.
Qed.

(** X8.  On an open connection whose gate is open, [WriteReliablePacket]
    returns without waiting: the packet takes sequence [wi], which advances by
    one, and carries [ack = ri - 1] with the ack bits of the receive window;
    send slot [wi mod W_s] takes the tag and the serialized packet, not acked
    and never resent; the buffer the slot retained, if any, goes back to the
    pool; and the transport is called once, with the header followed by the
    payload.  Nothing else changes but [lui] and the time of the last send. *)
Theorem reliable_write (payload : bytes) (c : Conn) (wakeups : list Conn) :
  wf c ->
  die c = false ->
  GT (u16 (wi c + 1)) (u16 (oui c + len (rq c))) = false ->
  let ack := u16 (ri c - 1) in
  let header := {| Sequence := wi c; ACK := ack;
                   ACKBits := prepareAckBits c ack;
                   Unordered := false; Empty := false |} in
  let b := {| B := AppendTo header [] ++ payload |} in
  let i := Z.to_nat (wi c mod len (wq c)) in
  exists lui' err,
    WriteReliablePacket GT AppendTo isEOF now payload c wakeups
    = Done (err,
            set_wqe (<[i := {| buf := Some b; acked := false; written := now;
                               resent := 0 |}]> (wqe c))
              (set_wq (<[i := wi c]> (wq c))
                 (set_ls now (set_lui lui' (set_wi (u16 (wi c + 1)) c)))),
            match buf (entry c (wi c mod len (wq c))) with
            | Some old => [PoolPut old]
            | None => []
            end ++ [WriteTo (B b)]).
Proof.
  intros Hwf Hdie Hgate ack header b i.
  pose proof (wf_rq c Hwf) as Hrq.
  destruct (trackAcked_total now ack _ (set_wi_wf (wi c + 1) c Hwf))
    as [lui' Hta].
  exists lui'.
  rewrite writePacket_reliable_open
    by (apply mustWait_false; right;
        rewrite (u16_id (len (rq c))) by (unfold is_u16; lia); exact Hgate).
  rewrite Hdie.
  change (ri (set_wi (u16 (wi c + 1)) c)) with (ri c). fold ack.
  rewrite Hta.
  rewrite (prepareAckBits_rq c (set_wi _ _)) by reflexivity.
  cbn [mbind outcome_bind negb]. fold header.
  unfold write. cbv zeta. cbn [Unordered header negb Sequence].
  rewrite trackWrite_next
    by (try reflexivity; try apply (wf_wq c Hwf); apply (wf_wi c Hwf)).
  cbn [B poolGet].
  match goal with |- context [transmit ?x ?y] => set (t := transmit x y) end.
  destruct t as [e|]; [destruct (isEOF e)|]; cbn [negb];
    eexists; rewrite app_nil_r; reflexivity.
Qed.

(** [writeAcksIfNecessary] never calls the packet handler. *)
Lemma writeAcks_no_handle (fuel : nat) :
  forall c wakeups r c' rest evs,
    writeAcksIfNecessary GT AppendTo isEOF now fuel c wakeups
    = Done (r, c', rest, evs) ->
    forall s p, ~ In (Handle s p) evs.
Proof.
  induction fuel as [|fuel IH]; intros c wakeups r c' rest evs Hdone s p;
    [discriminate|].
  cbn [writeAcksIfNecessary] in Hdone.
  destruct (createAckIfNecessary GT now c wakeups)
    as [[[[h needed] c1] rest1]| |]; try discriminate.
  cbn [mbind outcome_bind] in Hdone.
  destruct needed; cbn [negb] in Hdone.
  - pose proof (write_rx GT AppendTo isEOF now h [] c1) as [_ Hno].
    destruct (write GT AppendTo isEOF now h [] c1) as [[err c2] evs1].
    simpl in Hno. destruct err as [e|].
    + injection Hdone as <- <- <- <-. apply Hno.
    + destruct (writeAcksIfNecessary GT AppendTo isEOF now fuel c2 rest1)
        as [[[[r2 c3] rest2] evs2]| |] eqn:Hrec; try discriminate.
      cbn [mbind outcome_bind] in Hdone. injection Hdone as <- <- <- <-.
      intros Hin. apply in_app_or in Hin as [Hin|Hin].
      * eapply Hno, Hin.
      * eapply IH; eassumption.
  - injection Hdone as <- <- <- <-. intros [].
Qed.

(** X9.  The only call of the packet handler that [Read] ever makes is for
    the packet it was given: the handler gets its sequence and its payload,
    the packet is not [Empty], a handler is installed, the call is the last
    event, and [Read] returns nil. *)
Theorem Read_handles_own_packet (fuel : nat) (header : PacketHeader)
  (payload : bytes) (c : Conn) (wakeups : list Conn)
  (r : option error) (c' : Conn) (evs : list event) (s : Z) (p : bytes) :
  Read GT AppendTo isEOF now fuel header payload c wakeups = Done (r, c', evs) ->
  In (Handle s p) evs ->
  s = Sequence header /\ p = payload /\ Empty header = false /\ ph c' = true
  /\ r = None
  /\ exists evs0, evs = evs0 ++ [Handle s p]
                  /\ forall s' p', ~ In (Handle s' p') evs0.
Proof.
  intros Hread Hin. unfold Read in Hread.
  pose proof (readAckBits_events (ACK header) (ACKBits header) c) as Hev1.
  destruct (readAckBits (ACK header) (ACKBits header) c) as [c1 ev1].
  simpl in Hev1.
  assert (Hno1 : forall s' p', ~ In (Handle s' p') ev1).
  { intros s' p' H. apply Hev1 in H as [b' Hb]. discriminate. }
  destruct (if negb (Unordered header) then trackRead GT (Sequence header) c1
            else (true, c1)) as [fresh c2].
  destruct (negb (Unordered header) && negb fresh).
  { injection Hread as <- <- <-. exfalso. eapply Hno1, Hin. }
  unfold trackUnacked in Hread.
  destruct (trackUnacked_loop seqSpace c2 (oui c2)) as [o|]; [|discriminate].
  cbn [mbind outcome_bind] in Hread.
  destruct (writeAcksIfNecessary GT AppendTo isEOF now fuel (set_oui o c2)
              wakeups) as [[[[err c4] rest] ev4]| |] eqn:Hacks;
    try discriminate.
  pose proof (writeAcks_no_handle _ _ _ _ _ _ _ Hacks) as Hno4.
  cbn [mbind outcome_bind] in Hread.
  assert (Hno : forall s' p', ~ In (Handle s' p') (ev1 ++ [Broadcast] ++ ev4)).
  { intros s' p' H. apply in_app_or in H as [H|H]; [eapply Hno1, H|].
    apply in_app_or in H as [H|H]; [simpl in H; intuition discriminate|].
    eapply Hno4, H. }
  destruct err as [e|];
    [injection Hread as <- <- <-; exfalso; eapply Hno, Hin|].
  destruct (Empty header) eqn:Hempty;
    [injection Hread as <- <- <-; exfalso; eapply Hno, Hin|].
  destruct (ph c4) eqn:Hph;
    [|injection Hread as <- <- <-; exfalso; eapply Hno, Hin].
  injection Hread as <- <- <-.
  assert (Hlast : In (Handle s p) [Handle (Sequence header) payload]).
  { apply in_app_or in Hin as [Hin|Hin]; [exfalso; eapply Hno1, Hin|].
    destruct Hin as [Hin|Hin]; [discriminate Hin|].
    apply in_app_or in Hin as [Hin|Hin]; [exfalso; eapply Hno4, Hin|].
    exact Hin. }
  destruct Hlast as [Heq|[]]. injection Heq as <- <-.
  repeat split; try reflexivity; try assumption.
  exists (ev1 ++ [Broadcast] ++ ev4). split; [now rewrite <- !app_assoc|exact Hno].
Qed.

(** X10.  An unordered packet bypasses the receive window: [Read] leaves
    [ri] and every receive slot as they were, whatever sequence the packet
    carries, and hands the packet to the handler (when it has a payload, a
    handler is installed and the ack writes did not fail).  With no other
    goroutine at work [Read] returns, or waits at the gate for a standalone
    ack. *)
Theorem unordered_receive (fuel : nat) (header : PacketHeader) (payload : bytes)
  (c : Conn) :
  wf c ->
  2048 <= Z.of_nat fuel ->
  Unordered header = true ->
  match Read GT AppendTo isEOF now fuel header payload c [] with
  | Done (r, c', evs) =>
      ri c' = ri c
      /\ rq c' = rq c
      /\ (r = None -> Empty header = false -> ph c = true ->
          In (Handle (Sequence header) payload) evs)
  | Blocked => True
  | OutOfFuel => False
  end.
Proof.
  intros Hwf Hfuel Hun. unfold Read.
  pose proof (readAckBits_frame (ACK header) (ACKBits header) c) as Hframe.
  destruct (readAckBits (ACK header) (ACKBits header) c) as [c1 ev1].
  simpl in Hframe.
  pose proof (same_but_wqe_wf _ _ Hframe Hwf) as Hwf1.
  destruct Hframe as [Hf _].
  assert (Hrq1 : rq c1 = rq c) by (rewrite Hf; reflexivity).
  assert (Hri1 : ri c1 = ri c) by (rewrite Hf; reflexivity).
  assert (Hph1 : ph c1 = ph c) by (rewrite Hf; reflexivity).
  rewrite Hun. cbn [negb andb].
  destruct (trackUnacked_total c1 Hwf1) as [o Hto]. rewrite Hto.
  cbn [mbind outcome_bind].
  pose proof (writeAcks_alone_rx GT AppendTo isEOF now fuel (set_oui o c1))
    as Hinv.
  pose proof (writeAcks_alone_returns GT AppendTo isEOF now fuel (set_oui o c1)
                (wf_rq c1 Hwf1) (wf_lui c1 Hwf1) Hfuel) as Hret.
  destruct (writeAcksIfNecessary GT AppendTo isEOF now fuel (set_oui o c1) [])
    as [[[[r c4] rest] ev4]| |]; [|exact I|congruence].
  simpl in Hinv. destruct Hinv as (Hrq4 & Hri4 & Hph4 & _).
  cbn [mbind outcome_bind].
  destruct r as [e|];
    [split; [congruence|]; split; [congruence|discriminate]|].
  destruct (Empty header).
  { split; [congruence|]. split; [congruence|]. intros _ H. discriminate H. }
  destruct (ph c4) eqn:Hph.
  - split; [congruence|]. split; [congruence|]. intros _ _ _.
    rewrite !app_assoc. apply in_or_app. right. now left.
  - split; [congruence|]. split; [congruence|]. intros _ _ H. congruence.
Qed.

End WholePaths.

(** ** The shape of the connection is kept *)

Lemma set_lui_wf (v : Z) (c : Conn) : wf c -> wf (set_lui (u16 v) c).
Proof. intros []. split; try assumption. apply u16_range. Qed.

Lemma set_oui_wf (v : Z) (c : Conn) : wf c -> wf (set_oui (u16 v) c).
Proof. intros []. split; try assumption. apply u16_range. Qed.

Lemma set_ls_wf (v : Z) (c : Conn) : wf c -> wf (set_ls v c).
Proof. intros []. split; assumption. Qed.

Section Shape.

Variable GT : Z -> Z -> bool.
Variable AppendTo : PacketHeader -> bytes -> bytes.
Variable isEOF : error -> bool.
Variable now : Z.

Lemma trackWrite_wf (idx : Z) (b : Buffer) (c : Conn) :
  wf c -> wf (fst (trackWrite GT now idx b c)).
Proof.
  intros Hwf. unfold trackWrite. cbv zeta.
  set (c1 := if GT (u16 (idx + 1)) (wi c)
             then set_wi (u16 (idx + 1)) (clearWrites c (wi c) idx) else c).
  assert (Hwf1 : wf c1).
  { subst c1. destruct (GT _ _); [|exact Hwf]. apply set_wi_wf.
    pose proof (clearRing_length (wq c) (wi c) idx (wf_wq c Hwf)) as Hlen.
    destruct Hwf. split; try assumption; simpl; unfold len in *;
      rewrite Hlen; assumption. }
  destruct Hwf1. split; try assumption; cbn [fst rq wq wqe set_wqe set_wq].
  - unfold len in *. now rewrite length_insert.
  - now rewrite !length_insert.
Qed.

Lemma write_wf (header : PacketHeader) (payload : bytes) (c : Conn) :
  wf c -> wf (snd (fst (write GT AppendTo isEOF now header payload c))).
Proof.
  intros Hwf. unfold write. cbv zeta.
  set (b := {| B := AppendTo header (B poolGet) ++ payload |}).
  pose proof (trackWrite_wf (Sequence header) b c Hwf) as Htw.
  destruct (negb (Unordered header)).
  - destruct (trackWrite GT now (Sequence header) b c) as [c1 put].
    destruct (transmit c1 (B b)) as [e|]; [destruct (negb (isEOF e))|];
      exact Htw.
  - destruct (transmit c (B b)) as [e|]; [destruct (negb (isEOF e))|];
      exact Hwf.
Qed.

Lemma trackRead_wf (idx : Z) (c : Conn) :
  wf c -> wf (snd (trackRead GT idx c)).
Proof.
  intros Hwf. unfold trackRead. cbv zeta.
  destruct (holds _ _ _); [exact Hwf|].
  set (c1 := if GT (u16 (idx + 1)) (ri c)
             then set_ri (u16 (idx + 1)) (clearReads c (ri c) idx) else c).
  assert (Hwf1 : wf c1).
  { subst c1. destruct (GT _ _); [|exact Hwf].
    pose proof (clearRing_length (rq c) (ri c) idx (wf_rq c Hwf)) as Hlen.
    destruct Hwf. split; try assumption; simpl; try apply u16_range.
    unfold len in *. rewrite Hlen. assumption. }
  destruct Hwf1. split; try assumption. cbn [snd rq set_rq].
  unfold len in *. now rewrite length_insert.
Qed.

Lemma wait_wf (wakeups : list Conn) :
  forall c cw rest,
    wf c -> Forall wf wakeups ->
    waitUntilReaderAvailable GT wakeups c = Done (cw, rest) ->
    wf cw /\ Forall wf rest.
Proof.
  induction wakeups as [|c' wakeups IH]; intros c cw rest Hwf Hall Hdone;
    cbn [waitUntilReaderAvailable] in Hdone; destruct (mustWait GT c);
    try discriminate.
  - injection Hdone as <- <-. auto.
  - inversion Hall; subst. eapply IH; eassumption.
  - injection Hdone as <- <-. auto.
Qed.

Lemma createAck_wf (c : Conn) (wakeups : list Conn) h needed c1 rest :
  wf c -> Forall wf wakeups ->
  createAckIfNecessary GT now c wakeups = Done (h, needed, c1, rest) ->
  wf c1 /\ Forall wf rest.
Proof.
  intros Hwf Hall Hdone. unfold createAckIfNecessary in Hdone.
  destruct (negb (received_loop _ c (lui c) 0)).
  { injection Hdone as <- <- <- <-. auto. }
  cbv zeta in Hdone.
  destruct (waitUntilReaderAvailable GT wakeups _) as [[cw rest']| |] eqn:Hw;
    try discriminate.
  apply wait_wf in Hw as [Hcw Hrest];
    [|apply set_ls_wf, set_lui_wf, Hwf|exact Hall].
  cbn [mbind outcome_bind] in Hdone. unfold nextWriteIndex in Hdone.
  injection Hdone as <- <- <- <-. split; [now apply set_wi_wf|exact Hrest].
Qed.

Lemma writeAcks_wf (fuel : nat) :
  forall c wakeups r c' rest evs,
    wf c -> Forall wf wakeups ->
    writeAcksIfNecessary GT AppendTo isEOF now fuel c wakeups
    = Done (r, c', rest, evs) ->
    wf c'.
Proof.
  induction fuel as [|fuel IH]; intros c wakeups r c' rest evs Hwf Hall Hdone;
    [discriminate|].
  cbn [writeAcksIfNecessary] in Hdone.
  destruct (createAckIfNecessary GT now c wakeups)
    as [[[[h needed] c1] rest1]| |] eqn:Hc; try discriminate.
  apply createAck_wf in Hc as [Hwf1 Hall1]; try assumption.
  cbn [mbind outcome_bind] in Hdone.
  destruct needed; cbn [negb] in Hdone.
  - pose proof (write_wf h [] c1 Hwf1) as Hwf2.
    destruct (write GT AppendTo isEOF now h [] c1) as [[err c2] evs1].
    simpl in Hwf2. destruct err as [e|].
    + injection Hdone as <- <- <- <-. exact Hwf2.
    + destruct (writeAcksIfNecessary GT AppendTo isEOF now fuel c2 rest1)
        as [[[[r2 c3] rest2] evs2]| |] eqn:Hrec; try discriminate.
      cbn [mbind outcome_bind] in Hdone. injection Hdone as <- <- <- <-.
      eapply IH; eassumption.
  - injection Hdone as <- <- <- <-. exact Hwf1.
Qed.

(** X11.  [Read] keeps the shape of the connection: rings that are not
    empty and fit 16 bits, [wqe] as long as [wq], cursors in 16 bits.  This
    holds whatever the packet, and whatever (well-shaped) states [Read] wakes
    up in when it has to wait at the gate. *)
Theorem Read_keeps_shape (fuel : nat) (header : PacketHeader) (payload : bytes)
  (c : Conn) (wakeups : list Conn) (r : option error) (c' : Conn)
  (evs : list event) :
  wf c -> Forall wf wakeups ->
  Read GT AppendTo isEOF now fuel header payload c wakeups = Done (r, c', evs) ->
  wf c'.
Proof.
  intros Hwf Hall Hread. unfold Read in Hread.
  pose proof (readAckBits_frame (ACK header) (ACKBits header) c) as Hframe.
  destruct (readAckBits (ACK header) (ACKBits header) c) as [c1 ev1].
  simpl in Hframe. pose proof (same_but_wqe_wf _ _ Hframe Hwf) as Hwf1.
  pose proof (trackRead_wf (Sequence header) c1 Hwf1) as Htr.
  assert (Hwf2 : wf (snd (if negb (Unordered header)
                          then trackRead GT (Sequence header) c1
                          else (true, c1))))
    by (destruct (negb (Unordered header)); assumption).
  destruct (if negb (Unordered header) then trackRead GT (Sequence header) c1
            else (true, c1)) as [fresh c2].
  simpl in Hwf2.
  destruct (negb (Unordered header) && negb fresh).
  { injection Hread as <- <- <-. exact Hwf2. }
  destruct (trackUnacked_moves c2 Hwf2) as (n & _ & Hto).
  rewrite Hto in Hread. cbn [mbind outcome_bind] in Hread.
  destruct (writeAcksIfNecessary GT AppendTo isEOF now fuel _ wakeups)
    as [[[[err c4] rest] ev4]| |] eqn:Hacks; try discriminate.
  apply writeAcks_wf in Hacks; [|now apply set_oui_wf|exact Hall].
  cbn [mbind outcome_bind] in Hread.
  destruct err; [|destruct (Empty header); [|destruct (ph c4)]];
    injection Hread as <- <- <-; exact Hacks.
Qed.

(** X12.  [WriteReliablePacket] and [WriteUnreliablePacket] keep the shape
    of the connection: rings that are not empty and fit 16 bits, [wqe] as
    long as [wq], cursors in 16 bits, whatever (well-shaped) states the write
    wakes up in when it has to wait at the gate. *)
Theorem writePacket_keeps_shape (reliable : bool) (payload : bytes) (c : Conn)
  (wakeups : list Conn) (r : option error) (c' : Conn) (evs : list event) :
  wf c -> Forall wf wakeups ->
  writePacket GT AppendTo isEOF now reliable payload c wakeups
  = Done (r, c', evs) ->
  wf c'.
Proof.
  intros Hwf Hall Hdone. unfold writePacket in Hdone.
  assert (Hfirst : forall idx ack ackBits ok c1 rest,
             (if reliable then waitForNextWriteDetails GT c wakeups
              else let '(ack, ackBits) := nextAckDetails c in
                   Done (0, ack, ackBits, true, c, wakeups))
             = Done (idx, ack, ackBits, ok, c1, rest) -> wf c1).
  { intros idx ack ackBits ok c1 rest H. destruct reliable.
    - unfold waitForNextWriteDetails in H.
      destruct (waitUntilReaderAvailable GT wakeups c) as [[cw rest']| |]
        eqn:Hw; cbn [mbind outcome_bind] in H;
        [|discriminate H|discriminate H].
      apply wait_wf in Hw as [Hcw _]; try assumption.
      unfold nextWriteIndex, nextAckDetails in H. cbv beta iota zeta in H.
      set (bits := prepareAckBits _ _) in H. clearbody bits.
      injection H as <- <- <- <- <- <-. now apply set_wi_wf.
    - unfold nextAckDetails in H. cbv beta iota zeta in H.
      set (bits := prepareAckBits _ _) in H. clearbody bits.
      injection H as <- <- <- <- <- <-. exact Hwf. }
  destruct (if reliable then waitForNextWriteDetails GT c wakeups else _)
    as [[[[[[idx ack] ackBits] ok] c1] rest]| |]; try discriminate.
  specialize (Hfirst _ _ _ _ _ _ eq_refl).
  cbn [mbind outcome_bind] in Hdone.
  destruct ok; cbn [negb] in Hdone; [|injection Hdone as <- <- <-; exact Hfirst].
  destruct (trackAcked_moves now ack c1 Hfirst) as (n & _ & Hta).
  rewrite Hta in Hdone. cbn [mbind outcome_bind] in Hdone.
  match type of Hdone with Done (write _ _ _ _ ?h ?p ?x) = _ =>
    pose proof (write_wf h p x
                  (set_ls_wf _ _ (set_lui_wf _ _ Hfirst))) as Hw;
    destruct (write GT AppendTo isEOF now h p x) as [[err c2] evs2] end.
  injection Hdone as <- <- <-. exact Hw.
Qed.

End Shape.

(** ** The retransmit loop ([retransmitUnackedPackets]) *)

Lemma times_only_refl (c : Conn) : times_only c c.
Proof.
  split; [now destruct c|]. split; [reflexivity|]. intros i e He. eauto.
Qed.

Lemma times_only_trans (c1 c2 c3 : Conn) :
  times_only c1 c2 -> times_only c2 c3 -> times_only c1 c3.
Proof.
  intros (H1 & L1 & E1) (H2 & L2 & E2). split; [|split].
  - rewrite H2 at 1. rewrite H1. reflexivity.
  - congruence.
  - intros i e He. destruct (E1 i e He) as (e' & He' & Hb & Ha).
    destruct (E2 i e' He') as (e'' & He'' & Hb' & Ha').
    exists e''. repeat split; congruence.
Qed.

Lemma times_only_buffers_kept (c c' : Conn) :
  times_only c c' -> buffers_kept c -> buffers_kept c'.
Proof.
  intros (Heq & Hlen & Hent) Hkept i s e' Hwq Hs He' Ha.
  assert (Hwq' : wq c !! i = Some s) by (rewrite Heq in Hwq; exact Hwq).
  destruct (wqe c !! i) as [e|] eqn:He.
  - destruct (Hent i e He) as (e2 & He2 & Hb & Ha2).
    rewrite He2 in He'. injection He' as <-.
    rewrite Hb. apply (Hkept i s e Hwq' Hs He). congruence.
  - apply lookup_ge_None_1 in He. apply lookup_lt_Some in He'. lia.
Qed.

Lemma entry_Some (c : Conn) (i : Z) (b : Buffer) :
  buf (entry c i) = Some b -> wqe c !! Z.to_nat i = Some (entry c i).
Proof.
  unfold entry. destruct (wqe c !! Z.to_nat i); [reflexivity|discriminate].
Qed.

Section RetransmitPass.

Variable isEOF : error -> bool.
Variable now : Z.
Variable shouldResend : writtenPacket -> Z -> Z -> bool.
Variable resendTimeout : Z.

(** What [shouldResend] is for: an acked packet is not to be resent. *)
Hypothesis shouldResend_unacked :
  forall p n t, shouldResend p n t = true -> acked p = false.

Lemma retransmit_loop_pass (fuel : nat) :
  forall idx c r c' evs,
    0 <= idx ->
    retransmit_loop isEOF now shouldResend resendTimeout fuel idx c
    = Some (r, c', evs) ->
    times_only c c'
    /\ forall ev, In ev evs ->
         exists k e b,
           ev = WriteTo (B b)
           /\ idx <= k < u16 (len (wq c))
           /\ wq c !! Z.to_nat (u16 (oui c + k) mod u16 (len (wq c)))
              = Some (u16 (oui c + k))
           /\ wqe c !! Z.to_nat (u16 (oui c + k) mod u16 (len (wq c))) = Some e
           /\ buf e = Some b /\ acked e = false.
Proof.
  induction fuel as [|fuel IH]; intros idx c r c' evs Hidx Hloop.
  { injection Hloop as <- <- <-. split; [apply times_only_refl|intros ev []]. }
  cbn [retransmit_loop] in Hloop.
  destruct (Z.ltb_spec idx (u16 (len (wq c)))) as [Hlt|];
    [|injection Hloop as <- <- <-; split;
      [apply times_only_refl|intros ev []]].
  cbv zeta in Hloop.
  pose proof (u16_range (len (wq c))) as Hlen. unfold is_u16 in Hlen.
  assert (Hnext : u16 (idx + 1) = idx + 1)
    by (apply u16_id; unfold is_u16; lia).
  set (i := u16 (oui c + idx) mod u16 (len (wq c))) in *.
  destruct (negb (holds (wq c) i (uint32 (u16 (oui c + idx))))
            || negb (shouldResend (entry c i) now resendTimeout)) eqn:Hskip.
  { rewrite Hnext in Hloop. apply IH in Hloop as [Ht Hev]; [|lia].
    split; [exact Ht|]. intros ev Hin.
    destruct (Hev ev Hin) as (k & e & b & H). exists k, e, b.
    intuition lia. }
  apply orb_false_elim in Hskip as [Hh Hsr].
  apply negb_false_iff in Hh, Hsr.
  rewrite uint32_u16 in Hh. apply holds_lookup in Hh.
  apply shouldResend_unacked in Hsr.
  destruct (buf (entry c i)) as [b|] eqn:Hb; [|discriminate].
  pose proof (entry_Some c i b Hb) as He.
  assert (Hthis : exists k e b0,
             WriteTo (B b) = WriteTo (B b0)
             /\ idx <= k < u16 (len (wq c))
             /\ wq c !! Z.to_nat (u16 (oui c + k) mod u16 (len (wq c)))
                = Some (u16 (oui c + k))
             /\ wqe c !! Z.to_nat (u16 (oui c + k) mod u16 (len (wq c))) = Some e
             /\ buf e = Some b0 /\ acked e = false).
  { exists idx, (entry c i), b. repeat split; try assumption; lia. }
  destruct (transmit c (B b)) as [err|].
  { destruct (isEOF err); injection Hloop as <- <- <-;
      (split; [apply times_only_refl|]);
      intros ev [<-|[]]; exact Hthis. }
  set (c1 := set_wqe _ c) in Hloop.
  assert (Hstep : times_only c c1).
  { split; [reflexivity|]. split; [apply length_insert|].
    intros j e Hj. subst c1. cbn [wqe set_wqe]. rewrite list_lookup_insert.
    destruct (decide _) as [[<- _]|_]; [|eauto].
    rewrite He in Hj. injection Hj as <-. eauto. }
  destruct (retransmit_loop isEOF now shouldResend resendTimeout fuel
              (u16 (idx + 1)) c1) as [[[r2 c2] evs2]|] eqn:Hrec;
    [|discriminate].
  cbn in Hloop. injection Hloop as <- <- <-.
  rewrite Hnext in Hrec. apply IH in Hrec as [Ht Hev]; [|lia].
  split; [eapply times_only_trans; eassumption|].
  intros ev [<-|Hin]; [exact Hthis|].
  destruct (Hev ev Hin) as (k & e & b0 & -> & Hk & Hwq & Hwqe & Hbuf & Hack).
  cbn [wq oui set_wqe c1] in Hk, Hwq.
  destruct Hstep as (_ & _ & Hent).
  assert (Hback : exists e0,
             wqe c !! Z.to_nat (u16 (oui c + k) mod u16 (len (wq c))) = Some e0
             /\ buf e0 = Some b0 /\ acked e0 = false).
  { cbn [wq oui wqe set_wqe c1] in Hwqe.
    apply list_lookup_insert_Some in Hwqe as [(Heq & <- & _)|(_ & Hwqe)].
    - cbn [buf acked] in Hbuf, Hack. injection Hbuf as <-.
      exists (entry c i). rewrite <- Heq. auto.
    - exists e. auto. }
  destruct Hback as (e0 & He0 & Hb0 & Ha0).
  exists k, e0, b0. repeat split; try assumption; lia.
Qed.

(** X13.  A pass of the retransmit loop that returns changes nothing but the
    fields [written] and [resent] of send slots: tags, buffers, acked flags,
    cursors and the receive window are as before.  Every datagram it hands to
    the transport is the buffer of a send slot that holds one of the
    sequences [oui .. oui + W_s - 1] and is not acked (given that
    [shouldResend] refuses acked packets); it never calls the pool or the
    handler. *)
Theorem retransmit_pass (c : Conn) (r : option error) (c' : Conn)
  (evs : list event) :
  0 < len (wq c) < 65536 ->
  retransmitUnackedPackets isEOF now shouldResend resendTimeout c
  = Some (r, c', evs) ->
  times_only c c'
  /\ forall ev, In ev evs ->
       exists k e b,
         ev = WriteTo (B b)
         /\ 0 <= k < len (wq c)
         /\ wq c !! Z.to_nat (u16 (oui c + k) mod len (wq c))
            = Some (u16 (oui c + k))
         /\ wqe c !! Z.to_nat (u16 (oui c + k) mod len (wq c)) = Some e
         /\ buf e = Some b /\ acked e = false.
Proof.
  intros Hwq Hpass. unfold retransmitUnackedPackets in Hpass.
  apply retransmit_loop_pass in Hpass; [|lia].
  rewrite (u16_id (len (wq c))) in Hpass by (unfold is_u16; lia).
  exact Hpass.
Qed.

Lemma retransmit_loop_returns (fuel : nat) :
  forall idx c,
    length (wqe c) = length (wq c) ->
    buffers_kept c ->
    retransmit_loop isEOF now shouldResend resendTimeout fuel idx c <> None.
Proof.
  induction fuel as [|fuel IH]; intros idx c Hlen Hkept; [discriminate|].
  cbn [retransmit_loop].
  destruct (idx <? u16 (len (wq c))); [|discriminate]. cbv zeta.
  set (i := u16 (oui c + idx) mod u16 (len (wq c))) in *.
  destruct (negb (holds (wq c) i (uint32 (u16 (oui c + idx))))
            || negb (shouldResend (entry c i) now resendTimeout)) eqn:Hskip.
  { now apply IH. }
  apply orb_false_elim in Hskip as [Hh Hsr].
  apply negb_false_iff in Hh, Hsr.
  rewrite uint32_u16 in Hh. apply holds_lookup in Hh.
  apply shouldResend_unacked in Hsr.
  assert (He : wqe c !! Z.to_nat i = Some (entry c i)).
  { unfold entry. destruct (wqe c !! Z.to_nat i) eqn:E; [reflexivity|].
    apply lookup_ge_None_1 in E. apply lookup_lt_Some in Hh. lia. }
  pose proof (Hkept _ _ _ Hh (u16_range _) He Hsr) as Hbuf.
  destruct (buf (entry c i)) as [b|] eqn:Hb; [|congruence].
  destruct (transmit c (B b)) as [err|]; [destruct (isEOF err); discriminate|].
  set (c1 := set_wqe _ c).
  assert (Hstep : times_only c c1).
  { split; [reflexivity|]. split; [apply length_insert|].
    intros j e Hj. subst c1. cbn [wqe set_wqe]. rewrite list_lookup_insert.
    destruct (decide _) as [[<- _]|_]; [|eauto].
    rewrite He in Hj. injection Hj as <-. rewrite Hb. eauto. }
  specialize (IH (u16 (idx + 1)) c1
                ltac:(subst c1; cbn [wqe wq set_wqe];
                      rewrite length_insert; exact Hlen)
                (times_only_buffers_kept _ _ Hstep Hkept)).
  destruct (retransmit_loop isEOF now shouldResend resendTimeout fuel
              (u16 (idx + 1)) c1) as [[[r2 c2] evs2]|]; [discriminate|congruence].
Qed.

(** X14.  On a connection where every unacked slot that holds a sequence has
    kept its buffer, the retransmit loop never reads the bytes of a nil
    buffer: the pass returns, and the connection it leaves has the same
    property. *)
Theorem retransmit_returns (c : Conn) :
  length (wqe c) = length (wq c) ->
  buffers_kept c ->
  exists r c' evs,
    retransmitUnackedPackets isEOF now shouldResend resendTimeout c
    = Some (r, c', evs)
    /\ buffers_kept c'.
Proof.
  intros Hlen Hkept.
  pose proof (retransmit_loop_returns (length (wq c)) 0 c Hlen Hkept) as Hret.
  unfold retransmitUnackedPackets.
  destruct (retransmit_loop isEOF now shouldResend resendTimeout
              (length (wq c)) 0 c) as [[[r c'] evs]|] eqn:Hloop; [|congruence].
  exists r, c', evs. split; [reflexivity|].
  apply retransmit_loop_pass in Hloop as [Ht _]; [|lia].
  eapply times_only_buffers_kept; eassumption.
Qed.

End RetransmitPass.

(** ** Unacked slots keep their buffers *)

Lemma buffers_kept_ext (c c' : Conn) :
  wq c' = wq c -> wqe c' = wqe c -> buffers_kept c -> buffers_kept c'.
Proof. unfold buffers_kept. intros -> ->. auto. Qed.

(** A connection whose send slots are all empty, as [NewConn] makes it. *)
Lemma empty_buffers_kept (c : Conn) :
  (forall i s, wq c !! i = Some s -> s = emptySlot) -> buffers_kept c.
Proof.
  intros Hempty i s e Hwq Hs. apply Hempty in Hwq. subst s.
  unfold is_u16, emptySlot in Hs. lia.
Qed.

Lemma ackSlot_kept (s : Z) (c : Conn) :
  buffers_kept c -> buffers_kept (fst (ackSlot s c)).
Proof.
  intros Hkept. unfold ackSlot. cbv zeta.
  destruct (negb _ || _); [exact Hkept|].
  intros i s' e Hwq Hs He Ha. cbn [fst wq wqe set_wqe] in *.
  rewrite list_lookup_insert in He.
  destruct (decide _); [injection He as <-; discriminate Ha|].
  eapply Hkept; eassumption.
Qed.

Lemma ackAll_kept (l : list Z) :
  forall c, buffers_kept c -> buffers_kept (fst (ackAll l c)).
Proof.
  induction l as [|s l IH]; intros c Hkept; [exact Hkept|].
  simpl. pose proof (ackSlot_kept s c Hkept) as H1.
  destruct (ackSlot s c) as [c1 put]. specialize (IH c1 H1).
  destruct (ackAll l c1) as [c2 puts]. exact IH.
Qed.

Lemma readAckBits_kept (ack ackBits : Z) (c : Conn) :
  buffers_kept c -> buffers_kept (fst (readAckBits ack ackBits c)).
Proof.
  unfold readAckBits. rewrite readAckBits_loop_ackAll. apply ackAll_kept.
Qed.

Lemma clearRing_keeps_or_empties (q : list Z) (start end_ : Z) (i : nat) (s : Z) :
  0 < len q < 65536 ->
  clearRing q start end_ !! i = Some s -> s = emptySlot \/ q !! i = Some s.
Proof.
  intros Hq Hs. assert (Hi : (i < length q)%nat).
  { apply lookup_lt_Some in Hs. now rewrite clearRing_length in Hs. }
  rewrite clearRing_lookup in Hs by assumption.
  destruct (decide _); [left; congruence|now right].
Qed.

Section Buffers.

Variable GT : Z -> Z -> bool.
Variable AppendTo : PacketHeader -> bytes -> bytes.
Variable isEOF : error -> bool.
Variable now : Z.

Lemma trackWrite_kept (idx : Z) (b : Buffer) (c : Conn) :
  wf c -> buffers_kept c -> buffers_kept (fst (trackWrite GT now idx b c)).
Proof.
  intros Hwf Hkept. unfold trackWrite. cbv zeta.
  set (c1 := if GT (u16 (idx + 1)) (wi c)
             then set_wi (u16 (idx + 1)) (clearWrites c (wi c) idx) else c).
  assert (Hkept1 : buffers_kept c1).
  { subst c1. destruct (GT _ _); [|exact Hkept].
    intros i s e Hwq Hs He Ha. cbn [wq wqe set_wi clearWrites set_wq] in *.
    apply clearRing_keeps_or_empties in Hwq as [->|Hwq];
      [|eapply Hkept; eassumption|apply (wf_wq c Hwf)].
    unfold is_u16, emptySlot in Hs. lia. }
  intros i s e Hwq Hs He Ha. cbn [fst wq wqe set_wqe set_wq] in *.
  rewrite list_lookup_insert in He. rewrite list_lookup_insert in Hwq.
  destruct (decide _) as [[Heq Hlt]|Hn] in He.
  - injection He as <-. discriminate.
  - destruct (decide _) as [[Heq Hlt]|_] in Hwq.
    + exfalso. apply Hn. split; [exact Heq|].
      assert (Hwf1 : length (wqe c1) = length (wq c1)).
      { pose proof (trackWrite_wf GT now idx b c Hwf) as H.
        subst c1. destruct (GT _ _); [|apply (wf_wqe c Hwf)].
        cbn [wq wqe set_wi clearWrites set_wq].
        rewrite clearRing_length by apply (wf_wq c Hwf).
        apply (wf_wqe c Hwf). }
      now rewrite Hwf1.
    + eapply Hkept1; eassumption.
Qed.

Lemma write_sound (header : PacketHeader) (payload : bytes) (c : Conn) :
  sound c -> sound (snd (fst (write GT AppendTo isEOF now header payload c))).
Proof.
  intros [Hwf Hkept].
  split; [now apply write_wf|].
  unfold write. cbv zeta.
  set (b := {| B := AppendTo header (B poolGet) ++ payload |}).
  pose proof (trackWrite_kept (Sequence header) b c Hwf Hkept) as Htw.
  destruct (negb (Unordered header)).
  - destruct (trackWrite GT now (Sequence header) b c) as [c1 put].
    destruct (transmit c1 (B b)) as [e|]; [destruct (negb (isEOF e))|];
      exact Htw.
  - destruct (transmit c (B b)) as [e|]; [destruct (negb (isEOF e))|];
      exact Hkept.
Qed.

Lemma wait_sound (wakeups : list Conn) :
  forall c cw rest,
    sound c -> Forall sound wakeups ->
    waitUntilReaderAvailable GT wakeups c = Done (cw, rest) ->
    sound cw /\ Forall sound rest.
Proof.
  induction wakeups as [|c' wakeups IH]; intros c cw rest Hs Hall Hdone;
    cbn [waitUntilReaderAvailable] in Hdone; destruct (mustWait GT c);
    try discriminate.
  - injection Hdone as <- <-. auto.
  - inversion Hall; subst. eapply IH; eassumption.
  - injection Hdone as <- <-. auto.
Qed.

Lemma sound_cursors (c c' : Conn) :
  wf c' -> wq c' = wq c -> wqe c' = wqe c -> sound c -> sound c'.
Proof.
  intros Hwf Hwq Hwqe [_ Hkept]. split; [exact Hwf|].
  eapply buffers_kept_ext; eassumption.
Qed.

Lemma writeAcks_sound (fuel : nat) :
  forall c wakeups r c' rest evs,
    sound c -> Forall sound wakeups ->
    writeAcksIfNecessary GT AppendTo isEOF now fuel c wakeups
    = Done (r, c', rest, evs) ->
    sound c'.
Proof.
  induction fuel as [|fuel IH]; intros c wakeups r c' rest evs Hs Hall Hdone;
    [discriminate|].
  cbn [writeAcksIfNecessary] in Hdone.
  assert (Hcreate : forall h needed c1 rest1,
             createAckIfNecessary GT now c wakeups = Done (h, needed, c1, rest1) ->
             sound c1 /\ Forall sound rest1).
  { intros h needed c1 rest1 Hc. unfold createAckIfNecessary in Hc.
    destruct (negb (received_loop _ c (lui c) 0)).
    { injection Hc as <- <- <- <-. auto. }
    cbv zeta in Hc.
    destruct (waitUntilReaderAvailable GT wakeups _) as [[cw rest']| |] eqn:Hw;
      try discriminate.
    apply wait_sound in Hw as [Hcw Hrest]; [| |exact Hall].
    - cbn [mbind outcome_bind] in Hc. unfold nextWriteIndex in Hc.
      injection Hc as <- <- <- <-. split; [|exact Hrest].
      eapply sound_cursors; [apply set_wi_wf, Hcw| | |exact Hcw]; reflexivity.
    - eapply sound_cursors;
        [apply set_ls_wf, set_lui_wf, Hs| | |exact Hs]; reflexivity. }
  destruct (createAckIfNecessary GT now c wakeups)
    as [[[[h needed] c1] rest1]| |]; try discriminate.
  destruct (Hcreate _ _ _ _ eq_refl) as [Hs1 Hall1].
  cbn [mbind outcome_bind] in Hdone.
  destruct needed; cbn [negb] in Hdone.
  - pose proof (write_sound h [] c1 Hs1) as Hs2.
    destruct (write GT AppendTo isEOF now h [] c1) as [[err c2] evs1].
    simpl in Hs2. destruct err as [e|].
    + injection Hdone as <- <- <- <-. exact Hs2.
    + destruct (writeAcksIfNecessary GT AppendTo isEOF now fuel c2 rest1)
        as [[[[r2 c3] rest2] evs2]| |] eqn:Hrec; try discriminate.
      cbn [mbind outcome_bind] in Hdone. injection Hdone as <- <- <- <-.
      eapply IH; eassumption.
  - injection Hdone as <- <- <- <-. exact Hs1.
Qed.

(** X15.  [Read] and the two writes keep the connection sound: in shape, and
    with a buffer in every send slot that holds a sequence and is not acked.
    With X14, the retransmit loop can run between any two of them without
    meeting a nil buffer. *)
Theorem calls_keep_sound (c : Conn) (wakeups : list Conn) (r : option error)
  (c' : Conn) (evs : list event) :
  sound c -> Forall sound wakeups ->
  (forall fuel header payload,
      Read GT AppendTo isEOF now fuel header payload c wakeups
      = Done (r, c', evs) -> sound c')
  /\ (forall reliable payload,
         writePacket GT AppendTo isEOF now reliable payload c wakeups
         = Done (r, c', evs) -> sound c').
Proof.
  intros Hs Hall. destruct Hs as [Hwf Hkept]. split.
  - intros fuel header payload Hread.
    unfold Read in Hread.
    pose proof (readAckBits_frame (ACK header) (ACKBits header) c) as Hframe.
    pose proof (readAckBits_kept (ACK header) (ACKBits header) c Hkept) as Hk1.
    destruct (readAckBits (ACK header) (ACKBits header) c) as [c1 ev1].
    simpl in Hframe, Hk1.
    pose proof (same_but_wqe_wf _ _ Hframe Hwf) as Hwf1.
    assert (Hs2 : sound (snd (if negb (Unordered header)
                              then trackRead GT (Sequence header) c1
                              else (true, c1)))).
    { destruct (negb (Unordered header)); [|now split].
      apply (sound_cursors c1); [now apply trackRead_wf| | |now split];
        unfold trackRead; cbv zeta;
        destruct (holds _ _ _); try reflexivity; destruct (GT _ _); reflexivity. }
    destruct (if negb (Unordered header) then trackRead GT (Sequence header) c1
              else (true, c1)) as [fresh c2].
    simpl in Hs2.
    destruct (negb (Unordered header) && negb fresh).
    { injection Hread as <- <- <-. exact Hs2. }
    destruct (trackUnacked_moves c2 (proj1 Hs2)) as (n & _ & Hto).
    rewrite Hto in Hread. cbn [mbind outcome_bind] in Hread.
    destruct (writeAcksIfNecessary GT AppendTo isEOF now fuel _ wakeups)
      as [[[[err c4] rest] ev4]| |] eqn:Hacks; try discriminate.
    apply writeAcks_sound in Hacks; [| |exact Hall].
    2:{ eapply sound_cursors; [apply set_oui_wf, Hs2| | |exact Hs2]; reflexivity. }
    cbn [mbind outcome_bind] in Hread.
    destruct err; [|destruct (Empty header); [|destruct (ph c4)]];
      injection Hread as <- <- <-; exact Hacks.
  - intros reliable payload Hdone. unfold writePacket in Hdone.
    assert (Hfirst : forall idx ack ackBits ok c1 rest,
               (if reliable then waitForNextWriteDetails GT c wakeups
                else let '(ack, ackBits) := nextAckDetails c in
                     Done (0, ack, ackBits, true, c, wakeups))
               = Done (idx, ack, ackBits, ok, c1, rest) -> sound c1).
    { intros idx ack ackBits ok c1 rest H. destruct reliable.
      - unfold waitForNextWriteDetails in H.
        destruct (waitUntilReaderAvailable GT wakeups c) as [[cw rest']| |]
          eqn:Hw; cbn [mbind outcome_bind] in H;
          [|discriminate H|discriminate H].
        apply wait_sound in Hw as [Hcw _]; [|now split|exact Hall].
        unfold nextWriteIndex, nextAckDetails in H. cbv beta iota zeta in H.
        set (bits := prepareAckBits _ _) in H. clearbody bits.
        injection H as <- <- <- <- <- <-.
        eapply sound_cursors; [apply set_wi_wf, Hcw| | |exact Hcw]; reflexivity.
      - unfold nextAckDetails in H. cbv beta iota zeta in H.
        set (bits := prepareAckBits _ _) in H. clearbody bits.
        injection H as <- <- <- <- <- <-. now split. }
    destruct (if reliable then waitForNextWriteDetails GT c wakeups else _)
      as [[[[[[idx ack] ackBits] ok] c1] rest]| |]; try discriminate.
    specialize (Hfirst _ _ _ _ _ _ eq_refl).
    cbn [mbind outcome_bind] in Hdone.
    destruct ok; cbn [negb] in Hdone;
      [|injection Hdone as <- <- <-; exact Hfirst].
    destruct (trackAcked_moves now ack c1 (proj1 Hfirst)) as (n & _ & Hta).
    rewrite Hta in Hdone. cbn [mbind outcome_bind] in Hdone.
    match type of Hdone with Done (write _ _ _ _ ?h ?p ?x) = _ =>
      assert (Hx : sound x)
        by (eapply sound_cursors;
            [apply set_ls_wf, set_lui_wf, Hfirst| | |exact Hfirst];
            reflexivity);
      pose proof (write_sound h p x Hx) as Hw;
      destruct (write GT AppendTo isEOF now h p x) as [[err c2] evs2] end.
    injection Hdone as <- <- <-. exact Hw.
Qed.

End Buffers.
(** ** Stale sequences *)

Section StaleReceive.

Variable GT : Z -> Z -> bool.
Variable AppendTo : PacketHeader -> bytes -> bytes.
Variable isEOF : error -> bool.
Variable now : Z.

(** When the 32 sequences from [lui] on are not all recorded, the loop of
    [writeAcksIfNecessary] ends at its first turn, whatever the gate. *)
Lemma writeAcks_not_due (fuel : nat) (c : Conn) (wakeups : list Conn) :
  received_loop (Z.to_nat ACKBitsetSize) c (lui c) 0 = false ->
  writeAcksIfNecessary GT AppendTo isEOF now (S fuel) c wakeups
  = Done (None, c, wakeups, []).
Proof.
  intros Hrec. cbn [writeAcksIfNecessary]. unfold createAckIfNecessary.
  rewrite Hrec. reflexivity.
Qed.

(** With no other goroutine at work, the loop only waits on an open
    connection, and for an ack that is due. *)
Lemma writeAcks_alone_blocked (fuel : nat) :
  forall c,
    writeAcksIfNecessary GT AppendTo isEOF now fuel c [] = Blocked ->
    die c = false
    /\ received_loop (Z.to_nat ACKBitsetSize) c (lui c) 0 = true.
Proof.
  induction fuel as [|fuel IH]; intros c Hb; [discriminate Hb|].
  cbn [writeAcksIfNecessary] in Hb. rewrite createAck_alone in Hb.
  destruct (received_loop _ c (lui c) 0) eqn:Hrec; cbn [negb] in Hb;
    [|discriminate Hb].
  split; [|reflexivity].
  cbv zeta in Hb. destruct (mustWait GT _) eqn:Hmw.
  - unfold mustWait in Hmw. apply andb_true_iff in Hmw as [Hd _].
    apply negb_true_iff in Hd. exact Hd.
  - destruct (die c); [|reflexivity].
    cbn [mbind outcome_bind negb] in Hb. discriminate Hb.
Qed.

(** C10, as the code has it.  A reliable packet that is not a duplicate and
    whose sequence [s] is not after the last one read ([GT(s + 1, ri)] is
    false) is taken like a new one.
    - [trackRead] answers [true], leaves [ri] as it is and writes [s] over
      whatever slot [s mod W_r] held.
    - [Read] goes on past the receive tracking: from the state [c3] that
      [readAckBits], the store of [s] and [trackUnacked] leave, it runs
      [writeAcksIfNecessary], returns its error if it has one, and otherwise
      calls the packet handler when the packet has a payload and a handler
      is installed.  When the 32 sequences from [lui] on are not all
      recorded once [s] is stored, no standalone ack is due and [Read]
      returns nil at once, whatever the state of the writer gate.
    - Whenever [Read] returns, the handler was called at most once, as the
      last event and with [s] and the payload, and it was called exactly
      when [Read] returns nil, the packet is not [Empty] and a handler is
      installed; an error is that of the ack writes.
    - With no other goroutine at work [Read] returns or waits at the gate:
      when it returns, with an error or not, [ri] is as before, the receive
      window is the former one with [s] in slot [s mod W_r], and the handler
      is installed as it was; it only waits on an open connection, for a
      standalone ack that is due. *)
Theorem stale_receive (fuel : nat) (header : PacketHeader) (payload : bytes)
  (c : Conn) (wakeups : list Conn) :
  wf c ->
  Unordered header = false ->
  is_u16 (Sequence header) ->
  rq c !! Z.to_nat (Sequence header mod len (rq c)) <> Some (Sequence header) ->
  GT (u16 (Sequence header + 1)) (ri c) = false ->
  let s := Sequence header in
  let rq' := <[Z.to_nat (s mod len (rq c)) := s]> (rq c) in
  let due := forall k, 0 <= k < 32 ->
               rq' !! Z.to_nat (u16 (lui c + k) mod len (rq c))
               = Some (u16 (lui c + k)) in
  let handled (r : option error) (installed : bool) : list event :=
    match r with
    | None => if Empty header then []
              else if installed then [Handle s payload] else []
    | Some _ => []
    end in
  trackRead GT s c = (true, set_rq rq' c)
  /\ (exists c1 ev1 c3,
        readAckBits (ACK header) (ACKBits header) c = (c1, ev1)
        /\ trackUnacked (set_rq rq' c1) = Done (c3, [Broadcast])
        /\ rq c3 = rq' /\ ri c3 = ri c /\ lui c3 = lui c /\ ph c3 = ph c
        /\ die c3 = die c
        /\ Read GT AppendTo isEOF now fuel header payload c wakeups
           = ('(err, c4, _, ev4) ←
                writeAcksIfNecessary GT AppendTo isEOF now fuel c3 wakeups;
              Done (match err with
                    | Some e =>
                        Some (Errorf "failed to write acks when necessary" e)
                    | None => None
                    end, c4,
                    ev1 ++ [Broadcast] ++ ev4 ++ handled err (ph c4)))
        /\ (~ due -> fuel <> O ->
            Read GT AppendTo isEOF now fuel header payload c wakeups
            = Done (None, c3, ev1 ++ [Broadcast] ++ handled None (ph c))))
  /\ (forall r c' evs,
        Read GT AppendTo isEOF now fuel header payload c wakeups
        = Done (r, c', evs) ->
        (exists evs0, evs = evs0 ++ handled r (ph c')
                      /\ forall s' p', ~ In (Handle s' p') evs0)
        /\ forall e, r = Some e ->
             exists e0, e = Errorf "failed to write acks when necessary" e0)
  /\ (2048 <= Z.of_nat fuel ->
      match Read GT AppendTo isEOF now fuel header payload c [] with
      | Done (r, c', evs) => ri c' = ri c /\ rq c' = rq' /\ ph c' = ph c
      | Blocked => die c = false /\ due
      | OutOfFuel => False
      end).
Proof.
  intros Hwf Hun Hs Hnew Hgt s rq' due handled.
  pose proof (readAckBits_frame (ACK header) (ACKBits header) c) as Hframe.
  pose proof (readAckBits_events (ACK header) (ACKBits header) c) as Hev.
  destruct (readAckBits (ACK header) (ACKBits header) c) as [c1 ev1] eqn:Hack.
  cbn [fst snd] in Hframe, Hev.
  pose proof (same_but_wqe_wf _ _ Hframe Hwf) as Hwf1.
  destruct Hframe as [Hf _].
  assert (Hrq1 : rq c1 = rq c) by (rewrite Hf; reflexivity).
  assert (Hri1 : ri c1 = ri c) by (rewrite Hf; reflexivity).
  assert (Hph1 : ph c1 = ph c) by (rewrite Hf; reflexivity).
  assert (Hlui1 : lui c1 = lui c) by (rewrite Hf; reflexivity).
  assert (Hdie1 : die c1 = die c) by (rewrite Hf; reflexivity).
  assert (Htrack : trackRead GT s c1 = (true, set_rq rq' c1)).
  { unfold rq'. rewrite <- Hrq1. apply trackRead_stale;
      rewrite ?Hrq1, ?Hri1; try assumption. apply (wf_rq c Hwf). }
  set (c2 := set_rq rq' c1) in *.
  assert (Hlen : length rq' = length (rq c)) by apply length_insert.
  assert (Hwf2 : wf c2).
  { destruct Hwf1. split; try assumption. unfold c2, len. cbn [rq set_rq].
    rewrite Hlen, <- Hrq1. assumption. }
  destruct (trackUnacked_total c2 Hwf2) as [o Hto].
  set (c3 := set_oui o c2) in *.
  assert (Hrq3 : rq c3 = rq') by reflexivity.
  assert (Hri3 : ri c3 = ri c) by exact Hri1.
  assert (Hlui3 : lui c3 = lui c) by exact Hlui1.
  assert (Hph3 : ph c3 = ph c) by exact Hph1.
  assert (Hdie3 : die c3 = die c) by exact Hdie1.
  assert (Hlen3 : len (rq c3) = len (rq c))
    by (unfold len; now rewrite Hrq3, Hlen).
  assert (Hdue : received_loop (Z.to_nat ACKBitsetSize) c3 (lui c3) 0 = true
                 <-> due).
  { rewrite window_recorded by (rewrite Hlen3; apply (wf_rq c Hwf)).
    unfold due. rewrite Hlen3, Hrq3, Hlui3. reflexivity. }
  assert (Hread : forall ws,
    Read GT AppendTo isEOF now fuel header payload c ws
    = ('(err, c4, _, ev4) ←
         writeAcksIfNecessary GT AppendTo isEOF now fuel c3 ws;
       Done (match err with
             | Some e => Some (Errorf "failed to write acks when necessary" e)
             | None => None
             end, c4, ev1 ++ [Broadcast] ++ ev4 ++ handled err (ph c4)))).
  { intros ws.
    rewrite (Read_past_tracking GT AppendTo isEOF now fuel header payload
               c c1 c2 ev1 ws Hack)
      by (rewrite Hun; exact Htrack).
    rewrite Hto. cbn [mbind outcome_bind].
    destruct (writeAcksIfNecessary GT AppendTo isEOF now fuel c3 ws)
      as [[[[err c4] rest] ev4]| |]; cbn [mbind outcome_bind];
      [|reflexivity|reflexivity].
    destruct err as [e|]; cbn [handled].
    - now rewrite app_nil_r.
    - unfold handled. destruct (Empty header); [now rewrite app_nil_r|].
      destruct (ph c4); [reflexivity|now rewrite app_nil_r]. }
  split.
  { unfold rq'. apply trackRead_stale; try assumption. apply (wf_rq c Hwf). }
  split.
  { exists c1, ev1, c3. repeat (split; [first [reflexivity|assumption]|]).
    split; [apply Hread|].
    intros Hnot Hfuel. rewrite Hread.
    destruct fuel as [|fuel']; [congruence|].
    rewrite writeAcks_not_due.
    - cbn [mbind outcome_bind]. rewrite app_nil_l, Hph3. reflexivity.
    - destruct (received_loop _ c3 (lui c3) 0) eqn:Hrec; [|reflexivity].
      exfalso. apply Hnot, Hdue. reflexivity. }
  split.
  { intros r c' evs Hdone. rewrite Hread in Hdone.
    destruct (writeAcksIfNecessary GT AppendTo isEOF now fuel c3 wakeups)
      as [[[[err c4] rest] ev4]| |] eqn:Hw; cbn [mbind outcome_bind] in Hdone;
      [|discriminate Hdone|discriminate Hdone].
    injection Hdone as <- <- <-.
    pose proof (writeAcks_no_handle GT AppendTo isEOF now fuel _ _ _ _ _ _ Hw)
      as Hno.
    split.
    - exists (ev1 ++ [Broadcast] ++ ev4). split.
      + destruct err; rewrite <- !app_assoc; reflexivity.
      + intros s' p' Hin. apply in_app_or in Hin as [Hin|Hin].
        * apply Hev in Hin as [b Hb]. discriminate Hb.
        * apply in_app_or in Hin as [Hin|Hin].
          -- destruct Hin as [Hin|[]]. discriminate Hin.
          -- eapply Hno, Hin.
    - intros e He. destruct err as [e0|]; [|discriminate He].
      injection He as <-. now exists e0. }
  intros Hfuel. rewrite Hread.
  pose proof (writeAcks_alone_rx GT AppendTo isEOF now fuel c3) as Hinv.
  pose proof (writeAcks_alone_returns GT AppendTo isEOF now fuel c3
                ltac:(rewrite Hlen3; apply (wf_rq c Hwf))
                ltac:(rewrite Hlui3; apply (wf_lui c Hwf)) Hfuel) as Hret.
  pose proof (writeAcks_alone_blocked fuel c3) as Hblk.
  destruct (writeAcksIfNecessary GT AppendTo isEOF now fuel c3 [])
    as [[[[err c4] rest] ev4]| |]; cbn [mbind outcome_bind].
  - destruct Hinv as (Hrq4 & Hri4 & Hph4 & _). repeat split; congruence.
  - destruct (Hblk eq_refl) as [Hd Hrec]. split; [congruence|].
    apply Hdue, Hrec.
  - congruence.
Qed.

End StaleReceive.

(** ** The theorems at work, and where the statements of the specification
    fail *)

Lemma newConn_wf : wf (newConn 32).
Proof. split; unfold is_u16, len; simpl; lia. Defined.

Lemma lateConn_wf : wf lateConn.
Proof. split; unfold is_u16, len; simpl; lia. Defined.

Lemma windowConn_wf : wf windowConn.
Proof. split; unfold is_u16, len; simpl; lia. Defined.

(** C1: on a closed connection the sequence is taken although
    [GT(wi + 1, oui + W_r)] holds. *)
Lemma closed_writer_takes_sequence :
  die closedFull = true
  /\ wi closedFull = 32
  /\ GT16 (u16 (wi closedFull + 1))
       (u16 (oui closedFull + u16 (len (rq closedFull)))) = true
  /\ waitForNextWriteDetails GT16 closedFull []
     = Done (32, 65535, 0, false, set_wi 33 closedFull, []).
Proof. repeat split. Qed.

(** C2: a writer that waits at the gate of [fullConn] and is woken by
    [Close] gets [io.EOF]. *)
Lemma reliable_write_after_close_witness :
  die (fst (Close fullConn)) = true
  /\ WriteReliablePacket GT16 encodeHeader eofOnly 7 payload1 fullConn
       [fst (Close fullConn)]
     = Done (Some EOF, set_wi 33 (fst (Close fullConn)), []).
Proof.
  destruct (reliable_write_after_close GT16 encodeHeader eofOnly 7 payload1
              fullConn [] (fst (Close fullConn)) []) as (H1 & _ & H3).
  split; [exact H1|]. apply H3; [|reflexivity].
  constructor; [reflexivity|constructor].
Defined.

(** C2: on a closed connection an unreliable write calls the transport and
    returns nil. *)
Lemma unreliable_write_after_close :
  die (fst (Close (newConn 32))) = true
  /\ WriteUnreliablePacket GT16 encodeHeader eofOnly 7 payload1
       (fst (Close (newConn 32))) []
     = Done (None, set_ls 7 (fst (Close (newConn 32))),
             [WriteTo (encodeHeader (unreliableHeader 0) [] ++ payload1);
              PoolPut {| B := encodeHeader (unreliableHeader 0) [] ++ payload1 |}]).
Proof. split; vm_compute; reflexivity. Qed.



(** C5: bit [3] of the ack bits of [almostConn] for [ack = 30]. *)
Lemma prepareAckBits_spec_witness :
  0 < len (rq almostConn) < 65536
  /\ (Z.testbit (prepareAckBits almostConn 30) 3 = true
      <-> rq almostConn !! Z.to_nat (u16 (30 - 3) mod len (rq almostConn))
          = Some (u16 (30 - 3)))
  /\ 0 <= prepareAckBits almostConn 30 < 2 ^ 32.
Proof.
  assert (H : 0 < len (rq almostConn) < 65536) by (unfold len; simpl; lia).
  split; [exact H|].
  apply (prepareAckBits_spec almostConn 30 3 H). lia.
Defined.

(** C6: the ack [(4, 0b11111)] applied twice to [sentConn]. *)
Lemma readAckBits_idempotent_witness :
  length (wqe sentConn) = length (wq sentConn)
  /\ readAckBits 4 31 (fst (readAckBits 4 31 sentConn))
     = (fst (readAckBits 4 31 sentConn), [])
  /\ wq (fst (readAckBits 4 31 sentConn)) = wq sentConn.
Proof.
  destruct (readAckBits_idempotent sentConn 4 31
              ltac:(unfold len; simpl; lia) eq_refl) as (H1 & H2 & _).
  split; [reflexivity|]. split; [exact H1|exact H2].
Defined.

(** C7: sequence [5] comes to [almostConn] a second time. *)
Lemma duplicate_receive_witness :
  rq almostConn !! 5%nat = Some 5
  /\ exists c' evs,
       Read GT16 encodeHeader eofOnly 7 4 (dataHeader 5) payload1 almostConn []
       = Done (None, c', evs)
       /\ (c', evs) = readAckBits 65535 0 almostConn
       /\ ri c' = ri almostConn
       /\ rq c' = rq almostConn
       /\ forall s p, ~ In (Handle s p) evs.
Proof.
  split; [reflexivity|].
  apply (duplicate_receive GT16 encodeHeader eofOnly 7 4 (dataHeader 5)
           payload1 almostConn []).
  - unfold len. simpl. lia.
  - reflexivity.
  - unfold is_u16. simpl. lia.
  - reflexivity.
Defined.

(** C8: the buffer that send slot [0] of [afterWrite] retains is still there
    after [Close], and nothing went to the pool. *)
Lemma Close_leaves_buffer :
  buf <$> wqe afterWrite !! 0%nat
  = Some (Some {| B := encodeHeader (dataHeader 0) [] ++ payload1 |})
  /\ buf <$> wqe (fst (Close afterWrite)) !! 0%nat
     = Some (Some {| B := encodeHeader (dataHeader 0) [] ++ payload1 |})
  /\ snd (Close afterWrite) = [CloseExit; Broadcast].
Proof. repeat split. Qed.

(** C9: an unreliable write on a fresh connection. *)
Lemma unreliable_write_witness :
  exists lui' err c',
    WriteUnreliablePacket GT16 encodeHeader eofOnly 7 payload1 (newConn 32) []
    = Done (err, c',
            [WriteTo (encodeHeader (unreliableHeader 0) [] ++ payload1);
             PoolPut {| B := encodeHeader (unreliableHeader 0) [] ++ payload1 |}])
    /\ c' = set_ls 7 (set_lui lui' (newConn 32))
    /\ wi c' = wi (newConn 32) /\ wq c' = wq (newConn 32)
    /\ wqe c' = wqe (newConn 32).
Proof.
  exact (unreliable_write GT16 encodeHeader eofOnly 7 payload1 (newConn 32) []
           newConn_wf).
Defined.

(** C9: with [wi = 5], the header an unreliable write transmits has sequence
    [0], not [5]. *)
Lemma unreliable_sequence_zero :
  wi (set_wi 5 (newConn 32)) = 5
  /\ WriteUnreliablePacket GT16 encodeHeader eofOnly 7 payload1
       (set_wi 5 (newConn 32)) []
     = Done (None, set_ls 7 (set_wi 5 (newConn 32)),
             [WriteTo (encodeHeader (unreliableHeader 0) [] ++ payload1);
              PoolPut {| B := encodeHeader (unreliableHeader 0) [] ++ payload1 |}])
  /\ encodeHeader (unreliableHeader 0) [] <> encodeHeader (unreliableHeader 5) [].
Proof.
  split; [reflexivity|]. split; [vm_compute; reflexivity|].
  intros H. vm_compute in H. discriminate H.
Qed.


Lemma shutConn_wf : wf shutConn.
Proof. split; unfold is_u16, len; simpl; lia. Defined.

(** C10: sequence [3] comes to [shutConn], whose slot [3] records the newer
    sequence [35], while the writer gate is shut.  No standalone ack is due:
    [Read] stores [3] and calls the handler without waiting. *)
Lemma stale_receive_witness :
  rq shutConn !! 3%nat = Some 35
  /\ GT16 (u16 (3 + 1)) (ri shutConn) = false
  /\ mustWait GT16 shutConn = true
  /\ trackRead GT16 3 shutConn
     = (true, set_rq (<[3%nat := 3]> (rq shutConn)) shutConn)
  /\ Read GT16 encodeHeader eofOnly 7 4 (dataHeader 3) payload1 shutConn []
     = Done (None, set_rq (<[3%nat := 3]> (rq shutConn)) shutConn,
             [Broadcast; Handle 3 payload1]).
Proof.
  pose proof (stale_receive GT16 encodeHeader eofOnly 7 4 (dataHeader 3)
                payload1 shutConn [] shutConn_wf eq_refl
                ltac:(unfold is_u16; simpl; lia)
                ltac:(simpl; discriminate) eq_refl) as H.
  cbv zeta in H.
  destruct H as (Htrack & (c1 & ev1 & c3 & Hack & Hun & _ & _ & _ & _ & _ & _
                           & Hfast) & _ & _).
  split; [reflexivity|]. split; [reflexivity|]. split; [reflexivity|].
  split; [exact Htrack|].
  vm_compute in Hack. injection Hack as <- <-.
  vm_compute in Hun. injection Hun as <-.
  rewrite Hfast; [vm_compute; reflexivity| |discriminate].
  intros Hall. specialize (Hall 8 ltac:(lia)). vm_compute in Hall.
  discriminate Hall.
Defined.

(** C10: two stale packets that [Read] stores and does not hand to the
    handler, though one is installed.  A packet that is [Empty] comes under
    sequence [3] to [lateConn].  And sequence [0] comes to [downConn], where
    it completes the window [0..31]: the standalone ack that is then due
    cannot be written, and [Read] returns the error. *)
Lemma stale_receive_skips_handler :
  (rq lateConn !! 3%nat = Some 35
   /\ GT16 (u16 (3 + 1)) (ri lateConn) = false
   /\ ph lateConn = true
   /\ Read GT16 encodeHeader eofOnly 7 4 (emptyHeader 3) payload1 lateConn []
      = Done (None, set_rq (<[3%nat := 3]> (rq lateConn)) lateConn,
              [Broadcast]))
  /\ (rq downConn !! 0%nat = Some emptySlot
      /\ GT16 (u16 (0 + 1)) (ri downConn) = false
      /\ ph downConn = true
      /\ Read GT16 encodeHeader eofOnly 7 4 (dataHeader 0) payload1 downConn []
         = Done (Some (Errorf "failed to write acks when necessary"
                         (Errorf "failed to write ack packet"
                            (Errorf "failed to transmit packet" (ErrNet 1)))),
                 set_wqe (<[0%nat := {| buf := Some {| B := encodeHeader
                                                              downAck [] |};
                                        acked := false; written := 7;
                                        resent := 0 |}]> (wqe downConn))
                   (set_wq (<[0%nat := 0]> (wq downConn))
                      (set_wi 1 (set_ls 7 (set_lui 32
                         (set_rq (<[0%nat := 0]> (rq downConn)) downConn))))),
                 [Broadcast; WriteTo (encodeHeader downAck [])])).
Proof.
  split.
  - split; [reflexivity|]. split; [reflexivity|]. split; [reflexivity|].
    vm_compute. reflexivity.
  - split; [reflexivity|]. split; [reflexivity|]. split; [reflexivity|].
    vm_compute. reflexivity.
Qed.

(** ** The further theorems at work *)

Lemma sentConn_wf : wf sentConn.
Proof. split; unfold is_u16, len; simpl; lia. Defined.

Lemma almostConn_wf : wf almostConn.
Proof. split; unfold is_u16, len; simpl; lia. Defined.

Lemma agedUnacked_unacked (p : writtenPacket) (n t : Z) :
  agedUnacked p n t = true -> acked p = false.
Proof.
  unfold agedUnacked. intros H. apply andb_prop in H as [H _].
  now apply negb_true_iff in H.
Defined.

Lemma sentConn_buffers_kept : buffers_kept sentConn.
Proof.
  intros i s e Hwq Hs He Ha.
  do 5 (destruct i as [|i]; [simpl in He; injection He as <-; discriminate|]).
  change (replicate 27 emptySlot !! i = Some s) in Hwq.
  apply lookup_replicate_1 in Hwq as [-> _].
  unfold is_u16, emptySlot in Hs. lia.
Defined.

(** X1: four slots from slot [6] of a ring of eight wrap round to slot [1]. *)
Lemma clearRing_slots_witness :
  length (clearRing (tags 0 8) 6 9) = 8%nat
  /\ clearRing (tags 0 8) 6 9 !! 0%nat = Some emptySlot.
Proof.
  destruct (clearRing_slots (tags 0 8) 6 9 0
              ltac:(unfold len; simpl; lia) ltac:(unfold len; simpl; lia))
    as (Hlen & Hin & _).
  split; [exact Hlen|]. apply Hin. exists 2. split; [|reflexivity].
  change (u16 (9 - 6 + 1)) with 4. lia.
Defined.

(** X2: sequence [31] comes to [almostConn] twice. *)
Lemma trackRead_then_duplicate_witness :
  let '(fresh, c') := trackRead GT16 31 almostConn in
  rq c' !! Z.to_nat (31 mod len (rq almostConn)) = Some 31
  /\ length (rq c') = length (rq almostConn)
  /\ trackRead GT16 31 c' = (false, c')
  /\ (fresh = false -> c' = almostConn).
Proof.
  apply (trackRead_then_duplicate GT16 31 almostConn).
  - unfold len. simpl. lia.
  - unfold is_u16. lia.
Defined.

(** X3: the packet [almostConn] expects next. *)
Lemma trackRead_in_order_witness :
  trackRead GT16 (ri almostConn) almostConn
  = (true, set_rq (<[Z.to_nat (ri almostConn mod len (rq almostConn))
                     := ri almostConn]> (rq almostConn))
             (set_ri (u16 (ri almostConn + 1)) almostConn)).
Proof.
  apply (trackRead_in_order GT16 almostConn).
  - unfold len. simpl. lia.
  - unfold is_u16. simpl. lia.
  - reflexivity.
  - simpl. discriminate.
Defined.

(** X4: sequence [35] comes to [almostConn], which expects [31]: sequence
    [33] is not recorded afterwards, although slot [1] recorded [1]. *)
Lemma trackRead_gap_witness :
  rq almostConn !! 1%nat = Some 1
  /\ ri (snd (trackRead GT16 35 almostConn)) = 36
  /\ rq (snd (trackRead GT16 35 almostConn)) !! 3%nat = Some 35
  /\ rq (snd (trackRead GT16 35 almostConn)) !! 1%nat <> Some 33.
Proof.
  split; [reflexivity|].
  apply (trackRead_gap GT16 35 2 almostConn).
  - unfold len. simpl. lia.
  - reflexivity.
  - unfold is_u16. lia.
  - unfold is_u16. simpl. lia.
  - simpl. discriminate.
  - reflexivity.
  - simpl. discriminate.
  - change (u16 (35 - ri almostConn)) with 4. lia.
Defined.

(** X5: on [sentConn] only sequence [2] is acked: [oui] stays at [0]. *)
Lemma trackUnacked_run_witness :
  exists n, 0 <= n < 65536
    /\ trackUnacked sentConn
       = Done (set_oui (u16 (oui sentConn + n)) sentConn, [Broadcast])
    /\ (forall k, 0 <= k < n -> ackedSeq sentConn (u16 (oui sentConn + k)) = true)
    /\ ackedSeq sentConn (u16 (oui sentConn + n)) = false.
Proof. exact (trackUnacked_run sentConn sentConn_wf). Defined.

(** X6: a write from [windowConn] reports sequences [0..31]. *)
Lemma trackAcked_run_witness :
  exists n, 0 <= n < 65536
    /\ trackAcked 7 31 windowConn
       = Done (set_ls 7 (set_lui (u16 (lui windowConn + n)) windowConn))
    /\ (forall k, 0 <= k < n ->
          u16 (lui windowConn + k) <= 31
          /\ recordedSeq windowConn (u16 (lui windowConn + k)) = true)
    /\ (31 < u16 (lui windowConn + n)
        \/ recordedSeq windowConn (u16 (lui windowConn + n)) = false).
Proof. exact (trackAcked_run 7 31 windowConn windowConn_wf). Defined.

(** X7: the ack [(4, 0b11111)] reaches sequence [3] of [sentConn]. *)
Lemma readAckBits_acks_witness :
  let '(c1, evs) := readAckBits 4 31 sentConn in
  exists e,
    wqe c1 !! Z.to_nat (u16 (4 - 1) mod len (wq sentConn)) = Some e
    /\ acked e = true
    /\ forall e0 b,
         wqe sentConn !! Z.to_nat (u16 (4 - 1) mod len (wq sentConn)) = Some e0 ->
         acked e0 = false -> buf e0 = Some b ->
         buf e = None /\ In (PoolPut b) evs.
Proof.
  apply (readAckBits_acks sentConn 4 31 1).
  - unfold len. simpl. lia.
  - reflexivity.
  - lia.
  - reflexivity.
  - reflexivity.
Defined.

(** X8: the first reliable write of a fresh connection. *)
Lemma reliable_write_witness :
  exists lui' err,
    WriteReliablePacket GT16 encodeHeader eofOnly 7 payload1 (newConn 32) []
    = Done (err,
            set_wqe (<[0%nat := {| buf := Some {| B := encodeHeader (dataHeader 0) []
                                                        ++ payload1 |};
                                   acked := false; written := 7; resent := 0 |}]>
                       (wqe (newConn 32)))
              (set_wq (<[0%nat := 0]> (wq (newConn 32)))
                 (set_ls 7 (set_lui lui' (set_wi 1 (newConn 32))))),
            [WriteTo (encodeHeader (dataHeader 0) [] ++ payload1)]).
Proof.
  exact (reliable_write GT16 encodeHeader eofOnly 7 payload1 (newConn 32) []
           newConn_wf eq_refl eq_refl).
Defined.

(** X9: the one call of the handler that [Read] makes for sequence [3] on
    [lateConn]. *)
Lemma Read_handles_own_packet_witness :
  3 = Sequence (dataHeader 3) /\ payload1 = payload1
  /\ Empty (dataHeader 3) = false
  /\ ph (set_oui 0 (set_rq (<[3%nat := 3]> (rq lateConn)) lateConn)) = true
  /\ (None : option error) = None
  /\ exists evs0, [Broadcast; Handle 3 payload1] = evs0 ++ [Handle 3 payload1]
                  /\ forall s' p', ~ In (Handle s' p') evs0.
Proof.
  apply (Read_handles_own_packet GT16 encodeHeader eofOnly 7 4 (dataHeader 3)
           payload1 lateConn []).
  - vm_compute. reflexivity.
  - right. now left.
Defined.

(** X10: an unordered packet with sequence [9] comes to a fresh connection. *)
Lemma unordered_receive_witness :
  match Read GT16 encodeHeader eofOnly 7 (Z.to_nat 2048) (unreliableHeader 9)
          payload1 (newConn 32) [] with
  | Done (r, c', evs) =>
      ri c' = ri (newConn 32)
      /\ rq c' = rq (newConn 32)
      /\ (r = None -> Empty (unreliableHeader 9) = false ->
          ph (newConn 32) = true ->
          In (Handle (Sequence (unreliableHeader 9)) payload1) evs)
  | Blocked => True
  | OutOfFuel => False
  end.
Proof.
  apply (unordered_receive GT16 encodeHeader eofOnly 7 (Z.to_nat 2048)
           (unreliableHeader 9) payload1 (newConn 32) newConn_wf).
  - lia.
  - reflexivity.
Defined.

(** X11: [Read] of sequence [3] leaves [lateConn] in shape. *)
Lemma Read_keeps_shape_witness :
  wf (set_oui 0 (set_rq (<[3%nat := 3]> (rq lateConn)) lateConn)).
Proof.
  apply (Read_keeps_shape GT16 encodeHeader eofOnly 7 4 (dataHeader 3) payload1
           lateConn [] None _ [Broadcast; Handle 3 payload1] lateConn_wf).
  - constructor.
  - vm_compute. reflexivity.
Defined.

(** X12: a reliable write leaves a fresh connection in shape. *)
Lemma writePacket_keeps_shape_witness : wf afterWrite.
Proof.
  apply (writePacket_keeps_shape GT16 encodeHeader eofOnly 7 true payload1
           (newConn 32) [] None afterWrite
           [WriteTo (encodeHeader (dataHeader 0) [] ++ payload1)] newConn_wf).
  - constructor.
  - vm_compute. reflexivity.
Defined.

(** X13: a pass over [sentConn] at time [100], with a resend timeout of
    [50]. *)
Lemma retransmit_pass_witness :
  match retransmitted with
  | Some (r, c', evs) =>
      times_only sentConn c'
      /\ forall ev, In ev evs ->
           exists k e b,
             ev = WriteTo (B b)
             /\ 0 <= k < len (wq sentConn)
             /\ wq sentConn !! Z.to_nat (u16 (oui sentConn + k)
                                         mod len (wq sentConn))
                = Some (u16 (oui sentConn + k))
             /\ wqe sentConn !! Z.to_nat (u16 (oui sentConn + k)
                                          mod len (wq sentConn)) = Some e
             /\ buf e = Some b /\ acked e = false
  | None => False
  end.
Proof.
  unfold retransmitted.
  destruct (retransmitUnackedPackets eofOnly 100 agedUnacked 50 sentConn)
    as [[[r c'] evs]|] eqn:Hpass.
  - apply (retransmit_pass eofOnly 100 agedUnacked 50 agedUnacked_unacked
             sentConn r c' evs); [unfold len; simpl; lia|exact Hpass].
  - vm_compute in Hpass. discriminate Hpass.
Defined.

(** X14: the pass over [sentConn] returns. *)
Lemma retransmit_returns_witness :
  exists r c' evs,
    retransmitUnackedPackets eofOnly 100 agedUnacked 50 sentConn
    = Some (r, c', evs)
    /\ buffers_kept c'.
Proof.
  exact (retransmit_returns eofOnly 100 agedUnacked 50 agedUnacked_unacked
           sentConn eq_refl sentConn_buffers_kept).
Defined.

(** X15: a fresh connection is sound, and stays so after a reliable write. *)
Lemma calls_keep_sound_witness : sound (newConn 32) /\ sound afterWrite.
Proof.
  assert (Hnew : sound (newConn 32)).
  { split; [exact newConn_wf|]. apply empty_buffers_kept.
    intros i s Hs. now apply lookup_replicate_1 in Hs as [-> _]. }
  split; [exact Hnew|].
  destruct (calls_keep_sound GT16 encodeHeader eofOnly 7 (newConn 32) [] None
              afterWrite [WriteTo (encodeHeader (dataHeader 0) [] ++ payload1)]
              Hnew ltac:(constructor)) as [_ Hwrite].
  apply (Hwrite true payload1). vm_compute. reflexivity.
Defined.
